(** * cf-search: the index shard (SearchIndexDO) and its content filters

    A shallow embedding of [src/content-processor.ts], of the validation
    helpers of [src/types.ts], of the word sets of [src/config.ts] and of
    [src/durables/search-do.ts], followed by the properties of the shard
    that the specification states about them. *)

From Stdlib Require Import List Bool Arith NArith ZArith QArith Lia.
From Stdlib Require Import Ascii String DecimalString Permutation Sorted.
Import ListNotations.
Close Scope Q_scope.

Set Implicit Arguments.

(* ------------------------------------------------------------------ *)
(** ** JavaScript strings

    A string is its sequence of UTF-16 code units, so that [length] is
    the [.length] of the source. *)

Module JS.

Definition str := list N.

(** A literal of the source, written as a Rocq string. *)
Definition js (s : string) : str := map N_of_ascii (list_ascii_of_string s).

Definition str_eqb (a b : str) : bool :=
  if list_eq_dec N.eq_dec a b then true else false.

Definition between (lo hi c : N) : bool := (lo <=? c)%N && (c <=? hi)%N.

Definition is_digit (c : N) : bool := between 48 57 c.
Definition is_upper (c : N) : bool := between 65 90 c.
Definition is_lower (c : N) : bool := between 97 122 c.

(** The class [\w] of a regular expression without the [u] and [i] flags. *)
Definition is_word (c : N) : bool :=
  is_digit c || is_upper c || is_lower c || (c =? 95)%N.

(** The class [\s]: white space and line terminators. *)
Definition is_space (c : N) : bool :=
  between 9 13 c || (c =? 32)%N || (c =? 160)%N || (c =? 5760)%N
  || between 8192 8202 c || (c =? 8232)%N || (c =? 8233)%N
  || (c =? 8239)%N || (c =? 8287)%N || (c =? 12288)%N || (c =? 65279)%N.

(** [String.prototype.toLowerCase], one code unit at a time.  The Latin
    capitals go to their small letters; KELVIN SIGN (U+212A) goes to [k]
    and LATIN CAPITAL I WITH DOT ABOVE (U+0130) to [i] followed by
    U+0307.  Every other code unit outside ASCII has a lower case outside
    ASCII again and is left as it is here: the filters below look only at
    whether a unit is in [\w] or not. *)
Definition lower_unit (c : N) : str :=
  if is_upper c then [(c + 32)%N]
  else if (c =? 8490)%N then [107%N]
  else if (c =? 304)%N then [105%N; 775%N]
  else [c].

Definition toLowerCase (s : str) : str := flat_map lower_unit s.

(** The global replace of [/[^\w\s]+/] by one space: every maximal run of units that are
    neither word characters nor white space becomes one space. *)
Fixpoint replace_nonword_from (in_run : bool) (s : str) : str :=
  match s with
  | [] => []
  | c :: s' =>
      if is_word c || is_space c then c :: replace_nonword_from false s'
      else if in_run then replace_nonword_from true s'
      else 32%N :: replace_nonword_from true s'
  end.

Definition replace_nonword (s : str) : str := replace_nonword_from false s.

(** [s.split(/\s+/)]: the pieces between maximal runs of white space; a
    leading or trailing run leaves an empty piece, as in the source. *)
Fixpoint split_ws_from (in_sep : bool) (s : str) : list str :=
  match s with
  | [] => [[]]
  | c :: s' =>
      if is_space c then
        if in_sep then split_ws_from true s' else [] :: split_ws_from true s'
      else
        match split_ws_from false s' with
        | w :: ws => (c :: w) :: ws
        | [] => [[c]]
        end
  end.

Definition split_ws (s : str) : list str := split_ws_from false s.

Definition nonempty (w : str) : bool :=
  match w with [] => false | _ => true end.

(** [ws.join(sep)] *)
Fixpoint join (sep : str) (ws : list str) : str :=
  match ws with
  | [] => []
  | [w] => w
  | w :: ws' => w ++ sep ++ join sep ws'
  end.

Fixpoint trimStart (s : str) : str :=
  match s with
  | c :: s' => if is_space c then trimStart s' else s
  | [] => []
  end.

(** [s.trim()] *)
Definition trim (s : str) : str := rev (trimStart (rev (trimStart s))).

(** [s.slice(0, n)] for a literal [n >= 0]. *)
Definition slice0 (n : nat) (s : str) : str := firstn n s.

(** [s.includes(sub)] *)
Fixpoint starts_with (sub s : str) : bool :=
  match sub, s with
  | [], _ => true
  | a :: sub', b :: s' => (a =? b)%N && starts_with sub' s'
  | _ :: _, [] => false
  end.

Fixpoint includes (sub s : str) : bool :=
  starts_with sub s ||
  match s with
  | [] => false
  | _ :: s' => includes sub s'
  end.

(** Every double quote (unit 34) is written twice, what the source does
    with a global replace before it wraps a query in quotes. *)
Definition double_quotes (s : str) : str :=
  flat_map (fun c => if (c =? 34)%N then [34%N; 34%N] else [c]) s.

(** The double quote and the spaces of the source literals. *)
Definition dquote : str := [34%N].

(** [String(i)] of an integer. *)
Definition decimal (i : Z) : str := js (NilEmpty.string_of_int (Z.to_int i)).

End JS.
Import JS.

(* ------------------------------------------------------------------ *)
(** ** src/config.ts: the two word sets *)

Module Config.

Definition STOP_WORDS : list str := map js [
    "a"; "an"; "the"; "and"; "or"; "but"; "nor"; "for"; "yet"; "so"; "in";
    "on"; "at"; "to"; "from"; "with"; "by"; "about"; "against"; "between";
    "into"; "through"; "during"; "before"; "after"; "above"; "below"; "up";
    "down"; "out"; "off"; "over"; "under"; "i"; "me"; "my"; "myself"; "we";
    "our"; "ours"; "ourselves"; "you"; "your"; "yours"; "yourself";
    "yourselves"; "he"; "him"; "his"; "himself"; "she"; "her"; "hers";
    "herself"; "it"; "its"; "itself"; "they"; "them"; "their"; "theirs";
    "themselves"; "is"; "am"; "are"; "was"; "were"; "be"; "been"; "being";
    "have"; "has"; "had"; "having"; "do"; "does"; "did"; "doing"; "this";
    "that"; "these"; "those"; "what"; "which"; "who"; "whom"; "whose";
    "when"; "where"; "why"; "how"; "all"; "both"; "each"; "few"; "more";
    "most"; "other"; "some"; "such"; "only"; "very"; "can"; "will"; "just";
    "should"; "could"; "would"; "may"; "might"; "must"; "shall"; "not"; "no";
    "yes"
  ]%string.

Definition COMMON_TERMS : list str := map js [
    "post"; "posts"; "user"; "users"; "comment"; "comments"; "like"; "likes";
    "share"; "shares"; "view"; "views"; "video"; "videos"; "image"; "images";
    "photo"; "photos"; "picture"; "pictures"; "meme"; "memes"; "funny";
    "lol"; "lmao"; "fun"; "joke"; "jokes"; "humor"; "humour"; "viral";
    "trending"; "hot"; "new"; "best"; "top"; "popular"; "epic"; "awesome";
    "amazing"; "great"; "good"; "bad"; "wtf"; "omg"; "cat"; "cats"; "dog";
    "dogs"; "pet"; "pets"; "animal"; "animals"; "today"; "yesterday";
    "tomorrow"; "now"; "latest"; "recent"; "old"; "year"; "month"; "day";
    "time"; "content"; "thing"; "things"; "stuff"; "item"; "items"; "one";
    "two"; "first"; "last"; "next"
  ]%string.

(** [set.has(w)] *)
Definition has (set : list str) (w : str) : bool := existsb (str_eqb w) set.

End Config.
Import Config.

(* ------------------------------------------------------------------ *)
(** ** src/content-processor.ts *)

Module ContentProcessor.

(** The words of a text after the non-word characters have been blanked:
    the replace above, [.split(/\s+/)] and [.filter(w => w.length > 0)]. *)
Definition words_of (s : str) : list str :=
  filter nonempty (split_ws (replace_nonword s)).

Definition keep_content_word (word : str) : bool :=
  (2 <=? List.length word) && (List.length word <=? 50)
  && negb (has STOP_WORDS word) && negb (has COMMON_TERMS word).

Definition preprocessContent (content : str) : str :=
  match content with
  | [] => []
  | _ =>
      let words := words_of (toLowerCase content) in
      let filteredWords := filter keep_content_word words in
      trim (join (js " ") filteredWords)
  end.

Inductive Cost := low | medium | high.

Inductive Reason :=
| EmptyOrInvalidQuery
| NoValidSearchTerms
| TooManyCommonTerms.

Record QueryAnalysis := {
  isValid : bool;
  isTooCommon : bool;
  commonTermsRatio : Q;
  estimatedCost : Cost;
  reason : option Reason
}.

Definition is_common_word (word : str) : bool :=
  has STOP_WORDS word || has COMMON_TERMS word.

(** The source compares the quotient of two word counts, a double, with
    the doubles 0.8, 0.5 and 0; for counts that a string can hold these
    comparisons agree with the ones on the exact quotient, which is what
    is used here. *)
Definition analyzeQuery (query : str) : QueryAnalysis :=
  match query with
  | [] =>
      {| isValid := false; isTooCommon := false; commonTermsRatio := 0;
         estimatedCost := low; reason := Some EmptyOrInvalidQuery |}
  | _ =>
      let words := words_of (toLowerCase query) in
      match words with
      | [] =>
          {| isValid := false; isTooCommon := false; commonTermsRatio := 0;
             estimatedCost := low; reason := Some NoValidSearchTerms |}
      | _ =>
          let commonTermCount := List.length (filter is_common_word words) in
          let ratio :=
            (Z.of_nat commonTermCount # Pos.of_nat (List.length words))%Q in
          let tooCommon := negb (Qle_bool ratio (8 # 10)) in
          let cost :=
            if Qeq_bool ratio 0 then low
            else if negb (Qle_bool (5 # 10) ratio) then medium
            else high in
          {| isValid := true; isTooCommon := tooCommon;
             commonTermsRatio := ratio; estimatedCost := cost;
             reason := if tooCommon then Some TooManyCommonTerms else None |}
      end
  end.

Definition keep_query_word (word : str) : bool :=
  let lowerWord := toLowerCase word in
  (2 <=? List.length lowerWord) && negb (has STOP_WORDS lowerWord).

Definition preprocessQuery (query : str) : str :=
  match query with
  | [] => []
  | _ =>
      let words := words_of query in
      let filteredWords := filter keep_query_word words in
      trim (join (js " ") filteredWords)
  end.

End ContentProcessor.
Import ContentProcessor.

(* ------------------------------------------------------------------ *)
(** ** src/types.ts: documents, configuration and validation *)

Module Types.

(** The values a field of a parsed JSON document can hold.  [JNum] is a
    number that is an integer; every other value (a fraction, a boolean,
    an object) is [JOther]. *)
Inductive JsVal :=
| JUndefined
| JNull
| JNum (n : Z)
| JStr (s : str)
| JOther.

(** [Document]: an object with the fields [id] and [content]; the other
    fields are ignored by the shard. *)
Record Document := { id : JsVal; content : JsVal }.

Inductive IdType := string_id | integer_id.

Inductive ReplicaType := region | local.

(** [ReplicaInfo]; the field [id] of the source is [replica_id] here. *)
Record ReplicaInfo := {
  type : ReplicaType;
  name : option str;
  replica_id : option str
}.

(** [ConfigureRequest], every field optional; numbers are integers. *)
Record ConfigureRequest := {
  alarmIntervalMs : option Z;
  purgeThresholdDocs : option Z;
  purgeTargetDocs : option Z;
  coldStoragePrefix : option str;
  coldStorageThresholdDocs : option Z;
  replicas : option (list ReplicaInfo);
  isReadOnly : option bool;
  currentColdStorageIndex : option Z;
  idType : option IdType
}.

Definition DOConfig := ConfigureRequest.

(** The empty object, the configuration of a shard that was never
    configured. *)
Definition empty_config : DOConfig :=
  {| alarmIntervalMs := None; purgeThresholdDocs := None;
     purgeTargetDocs := None; coldStoragePrefix := None;
     coldStorageThresholdDocs := None; replicas := None;
     isReadOnly := None; currentColdStorageIndex := None; idType := None |}.

Definition override {A} (old new : option A) : option A :=
  match new with Some v => Some v | None => old end.

(** The object spread of [newConfig] over [config]. *)
Definition merge_config (c n : DOConfig) : DOConfig :=
  {| alarmIntervalMs := override (alarmIntervalMs c) (alarmIntervalMs n);
     purgeThresholdDocs :=
       override (purgeThresholdDocs c) (purgeThresholdDocs n);
     purgeTargetDocs := override (purgeTargetDocs c) (purgeTargetDocs n);
     coldStoragePrefix :=
       override (coldStoragePrefix c) (coldStoragePrefix n);
     coldStorageThresholdDocs :=
       override (coldStorageThresholdDocs c) (coldStorageThresholdDocs n);
     replicas := override (replicas c) (replicas n);
     isReadOnly := override (isReadOnly c) (isReadOnly n);
     currentColdStorageIndex :=
       override (currentColdStorageIndex c) (currentColdStorageIndex n);
     idType := override (idType c) (idType n) |}.

(** Truthiness of optional booleans, numbers and strings, and the
    [a || b] of the source on them. *)
Definition truthy_bool (o : option bool) : bool :=
  match o with Some true => true | _ => false end.

Definition truthy_num (o : option Z) : bool :=
  match o with Some z => negb (z =? 0)%Z | None => false end.

Definition num_or (o : option Z) (d : Z) : Z :=
  match o with Some z => if (z =? 0)%Z then d else z | None => d end.

Definition str_or (o : option str) (d : str) : str :=
  match o with Some (c :: s) => c :: s | _ => d end.

Definition idType_or_string (c : DOConfig) : IdType :=
  match idType c with Some t => t | None => string_id end.

Record SearchResult := {
  hit_id : option str;
  hit_content : str;
  rank : Z
}.

Record DOStats := {
  count : Z;
  estimatedSize : Z;
  stats_isReadOnly : option bool
}.

Inductive Field := field_id | field_content.

Inductive Message :=
| IdMustBeNonNegativeInteger
| IdMustBeString
| IdCannotBeEmpty
| IdTooLong
| ContentMustBeString
| ContentCannotBeEmpty.

(** [index] is the position that [validateDocuments] writes into the
    field name. *)
Record ValidationError := {
  index : option nat;
  field : Field;
  message : Message;
  value : JsVal
}.

Record ValidationResult (T : Type) := {
  valid : bool;
  data : option T;
  errors : list ValidationError
}.

Definition id_errors (doc : Document) (t : IdType) : list ValidationError :=
  let err m := [{| index := None; field := field_id; message := m;
                   value := id doc |}] in
  match t with
  | integer_id =>
      match id doc with
      | JNum n => if (n <? 0)%Z then err IdMustBeNonNegativeInteger else []
      | _ => err IdMustBeNonNegativeInteger
      end
  | string_id =>
      match id doc with
      | JStr s =>
          if List.length s =? 0 then err IdCannotBeEmpty
          else if 255 <? List.length s then err IdTooLong
          else []
      | _ => err IdMustBeString
      end
  end.

Definition content_errors (doc : Document) : list ValidationError :=
  let err m := [{| index := None; field := field_content; message := m;
                   value := content doc |}] in
  match content doc with
  | JStr s => if List.length s =? 0 then err ContentCannotBeEmpty else []
  | _ => err ContentMustBeString
  end.

Definition validateDocument (doc : Document) (t : IdType)
  : ValidationResult Document :=
  let errs := id_errors doc t ++ content_errors doc in
  {| valid := List.length errs =? 0;
     data := if List.length errs =? 0 then Some doc else None;
     errors := errs |}.

(** The [forEach] of [validateDocuments], from position [i] on: the valid
    documents and the errors, each tagged with its position. *)
Fixpoint validate_each (i : nat) (docs : list Document) (t : IdType)
  : list Document * list ValidationError :=
  match docs with
  | [] => ([], [])
  | doc :: rest =>
      let result := validateDocument doc t in
      let '(vs, es) := validate_each (S i) rest t in
      match valid result, data result with
      | true, Some d => (d :: vs, es)
      | _, _ =>
          (vs,
           map (fun e => {| index := Some i; field := field e;
                            message := message e; value := value e |})
               (errors result) ++ es)
      end
  end.

Definition validateDocuments (docs : list Document) (t : IdType)
  : ValidationResult (list Document) :=
  match docs with
  | [] => {| valid := true; data := Some []; errors := [] |}
  | _ =>
      let '(validDocuments, errs) := validate_each 0 docs t in
      {| valid := List.length errs =? 0;
         data := match validDocuments with
                 | [] => None
                 | _ => Some validDocuments
                 end;
         errors := errs |}
  end.

Inductive ErrorText :=
| ReadOnlyColdStorage      (* This is a read-only cold storage DO *)
| InvalidDocuments
| FailedToProcessDocuments
| FailedToSyncDocuments.

Inductive Details :=
| ValidationDetails (errs : list ValidationError)
| ErrorMessage.

Record IndexResult := {
  success : bool;
  indexed : nat;
  error : option ErrorText;
  details : option Details
}.

Record SyncResult := {
  sync_success : bool;
  synced : nat;
  sync_error : option ErrorText;
  sync_details : option Details
}.

Record SearchParams := {
  query : str;
  includeCold : option bool;
  maxResults : option Z
}.

End Types.
Import Types.

(* ------------------------------------------------------------------ *)
(** ** The SQLite store of a shard

    The table [documents] is created by [initialize] when the shard is
    first constructed; the configuration is still empty then, so the
    table has the layout [fts5(id UNINDEXED, content)].  A row written
    through [REPLACE INTO documents(rowid, content)] has NULL in [id]. *)

Module Store.

Record Row := {
  rowid : Z;
  row_id : option str;
  row_content : str
}.

(** The statements the shard runs, with their bound values. *)
Inductive Stmt :=
| CountDocuments
| MatchDocuments (ftsQuery : str) (limit : Z)
| SelectSince (lastSyncRowId : Z)
| SelectOldest (limit : Z)
| ReplaceRows (vals : list (JsVal * str))
| DeleteIds (ids : list JsVal)
| InsertRows (vals : list (JsVal * str))
| DeleteUpTo (maxRowid : Z).

(** [LIMIT ?]: a negative bound is no bound. *)
Definition sql_limit {A} (n : Z) (l : list A) : list A :=
  if (n <? 0)%Z then l else firstn (Z.to_nat n) l.

Fixpoint insert_by {A} (key : A -> Z) (x : A) (l : list A) : list A :=
  match l with
  | [] => [x]
  | y :: l' =>
      if (key y <? key x)%Z then y :: insert_by key x l' else x :: y :: l'
  end.

(** A stable sort on an integer key, ascending: [ORDER BY], and
    [Array.sort] with the comparison [a.key - b.key]. *)
Definition sort_by {A} (key : A -> Z) (l : list A) : list A :=
  fold_right (insert_by key) [] l.

Definition max_rowid (rows : list Row) : Z :=
  fold_right (fun r m => Z.max (rowid r) m) 0%Z rows.

(** One row of an [INSERT]: the table assigns the next rowid. *)
Definition insert_row (rows : list Row) (i : option str) (c : str)
  : list Row :=
  rows ++ [{| rowid := max_rowid rows + 1; row_id := i; row_content := c |}].

(** One row of a [REPLACE] on the rowid. *)
Definition replace_row (rows : list Row) (n : Z) (c : str) : list Row :=
  filter (fun r => negb (rowid r =? n)%Z) rows
  ++ [{| rowid := n; row_id := None; row_content := c |}].

Definition id_matches (ids : list JsVal) (r : Row) : bool :=
  match row_id r with
  | Some s =>
      existsb (fun v => match v with JStr t => str_eqb s t | _ => false end)
              ids
  | None => false
  end.

(** The values bound to the column [id] and to the rowid.  A value of
    another type is a datatype mismatch; the shard binds none, since it
    writes validated documents only. *)
Fixpoint bind_ids (vals : list (JsVal * str)) : option (list (str * str)) :=
  match vals with
  | [] => Some []
  | (JStr s, c) :: rest =>
      match bind_ids rest with
      | Some l => Some ((s, c) :: l)
      | None => None
      end
  | _ => None
  end.

Fixpoint bind_rowids (vals : list (JsVal * str)) : option (list (Z * str)) :=
  match vals with
  | [] => Some []
  | (JNum n, c) :: rest =>
      match bind_rowids rest with
      | Some l => Some ((n, c) :: l)
      | None => None
      end
  | _ => None
  end.

Definition to_document (r : Row) : Document :=
  {| id := match row_id r with Some s => JStr s | None => JNull end;
     content := JStr (row_content r) |}.

End Store.
Import Store.

(* ------------------------------------------------------------------ *)
(** ** What a shard is deployed into

    The bindings, the storage engine and the JavaScript engine are not
    part of the repository: [sql_raises rows stmt] says whether the call
    of [storage.sql.exec] raises on a statement in a given state of the
    table (a parse error of the FTS5 query, a storage fault),
    [fts5_rank rows q r] is the rank of row [r] when it matches the FTS5
    query [q], [databaseSize] is [storage.sql.databaseSize], and
    [max_arguments] is the greatest number of elements that the engine
    spreads into the arguments of one call: [f(...array)] raises a
    RangeError on a longer array.  The shard spreads arrays whose length
    grows with the table in [Math.max(...)] and in [push(...)]; the
    values that it spreads into a statement are those of one chunk, and
    what that call raises is part of [sql_raises]. *)

Record Env := {
  SEARCH_CACHE : bool;
  VITEST : bool;
  sql_raises : list Row -> Stmt -> bool;
  fts5_rank : list Row -> str -> Row -> option Z;
  databaseSize : list Row -> Z;
  max_arguments : N
}.

(** Whether spreading an array of [n] elements into a call raises. *)
Definition too_many_arguments (E : Env) (n : nat) : bool :=
  (max_arguments E <? N.of_nat n)%N.

(** Entries written at error level ([logger.error], [console.error],
    [console.warn]); entries at info level and metrics are left out. *)
Inductive LogEntry :=
| DocumentValidationFailed
| ErrorProcessingDocuments
| DocumentValidationFailedDuringSync
| ErrorSyncingDocuments
| ErrorGettingStats
| FailedToIndexDocuments
| RejectingExpensiveQuery
| SearchError
| FallbackSearchAlsoFailed
| SearchOperationFailed
| FailedToSyncToReplica (r : ReplicaInfo)
| InvalidReplicaConfiguration (r : ReplicaInfo)
| FailedToCreateReplicaStub (r : ReplicaInfo)
| ErrorSearchingColdStorage (coldStorageName : str)
| FailedToMoveDocumentsToColdStorage
| FailedToLogStorageMetrics.

(** One instance of [SearchIndexDO]: [this.config], the table, the keys
    of [state.storage], the alarm, and what it has written and run. *)
Record Shard := {
  config : DOConfig;
  rows : list Row;
  stored_config : option DOConfig;
  lastSyncRowId : option Z;
  stored_coldStorageIndex : option Z;
  alarm_time : option Z;
  sql_trace : list Stmt;
  error_log : list LogEntry;
  cache_invalidations : nat
}.

Definition fresh_shard : Shard :=
  {| config := empty_config; rows := []; stored_config := None;
     lastSyncRowId := None; stored_coldStorageIndex := None;
     alarm_time := None; sql_trace := []; error_log := [];
     cache_invalidations := 0 |}.

Definition set_config (c : DOConfig) (sh : Shard) : Shard :=
  {| config := c; rows := rows sh; stored_config := stored_config sh;
     lastSyncRowId := lastSyncRowId sh;
     stored_coldStorageIndex := stored_coldStorageIndex sh;
     alarm_time := alarm_time sh; sql_trace := sql_trace sh;
     error_log := error_log sh;
     cache_invalidations := cache_invalidations sh |}.

Definition set_rows (l : list Row) (sh : Shard) : Shard :=
  {| config := config sh; rows := l; stored_config := stored_config sh;
     lastSyncRowId := lastSyncRowId sh;
     stored_coldStorageIndex := stored_coldStorageIndex sh;
     alarm_time := alarm_time sh; sql_trace := sql_trace sh;
     error_log := error_log sh;
     cache_invalidations := cache_invalidations sh |}.

Definition put_config (c : DOConfig) (sh : Shard) : Shard :=
  {| config := config sh; rows := rows sh; stored_config := Some c;
     lastSyncRowId := lastSyncRowId sh;
     stored_coldStorageIndex := stored_coldStorageIndex sh;
     alarm_time := alarm_time sh; sql_trace := sql_trace sh;
     error_log := error_log sh;
     cache_invalidations := cache_invalidations sh |}.

Definition put_lastSyncRowId (n : Z) (sh : Shard) : Shard :=
  {| config := config sh; rows := rows sh; stored_config := stored_config sh;
     lastSyncRowId := Some n;
     stored_coldStorageIndex := stored_coldStorageIndex sh;
     alarm_time := alarm_time sh; sql_trace := sql_trace sh;
     error_log := error_log sh;
     cache_invalidations := cache_invalidations sh |}.

Definition put_coldStorageIndex (n : Z) (sh : Shard) : Shard :=
  {| config := config sh; rows := rows sh; stored_config := stored_config sh;
     lastSyncRowId := lastSyncRowId sh;
     stored_coldStorageIndex := Some n;
     alarm_time := alarm_time sh; sql_trace := sql_trace sh;
     error_log := error_log sh;
     cache_invalidations := cache_invalidations sh |}.

Definition setAlarm (t : Z) (sh : Shard) : Shard :=
  {| config := config sh; rows := rows sh; stored_config := stored_config sh;
     lastSyncRowId := lastSyncRowId sh;
     stored_coldStorageIndex := stored_coldStorageIndex sh;
     alarm_time := Some t; sql_trace := sql_trace sh;
     error_log := error_log sh;
     cache_invalidations := cache_invalidations sh |}.

Definition traced (st : Stmt) (sh : Shard) : Shard :=
  {| config := config sh; rows := rows sh; stored_config := stored_config sh;
     lastSyncRowId := lastSyncRowId sh;
     stored_coldStorageIndex := stored_coldStorageIndex sh;
     alarm_time := alarm_time sh; sql_trace := st :: sql_trace sh;
     error_log := error_log sh;
     cache_invalidations := cache_invalidations sh |}.

Definition logged (e : LogEntry) (sh : Shard) : Shard :=
  {| config := config sh; rows := rows sh; stored_config := stored_config sh;
     lastSyncRowId := lastSyncRowId sh;
     stored_coldStorageIndex := stored_coldStorageIndex sh;
     alarm_time := alarm_time sh; sql_trace := sql_trace sh;
     error_log := e :: error_log sh;
     cache_invalidations := cache_invalidations sh |}.

(** [invalidateCache(env.SEARCH_CACHE)]; it catches its own errors. *)
Definition invalidateCache (sh : Shard) : Shard :=
  {| config := config sh; rows := rows sh; stored_config := stored_config sh;
     lastSyncRowId := lastSyncRowId sh;
     stored_coldStorageIndex := stored_coldStorageIndex sh;
     alarm_time := alarm_time sh; sql_trace := sql_trace sh;
     error_log := error_log sh;
     cache_invalidations := S (cache_invalidations sh) |}.

(* ------------------------------------------------------------------ *)
(** ** src/durables/search-do.ts: the methods that stay inside a shard *)

Module SearchIndexDO.

Section Local.

Variable E : Env.

(** [storage.sql.exec]: the statement is recorded, then the engine either
    raises ([None], [false]) or answers. *)
Definition sql_count (sh : Shard) : option Z * Shard :=
  let sh' := traced CountDocuments sh in
  if sql_raises E (rows sh) CountDocuments then (None, sh')
  else (Some (Z.of_nat (List.length (rows sh))), sh').

Definition hit_of (rs : list Row) (q : str) (r : Row) : list SearchResult :=
  match fts5_rank E rs q r with
  | Some k => [{| hit_id := row_id r; hit_content := row_content r;
                  rank := k |}]
  | None => []
  end.

(** [SELECT id, content, rank FROM documents WHERE documents MATCH ?
    ORDER BY rank LIMIT ?] *)
Definition sql_match (sh : Shard) (q : str) (limit : Z)
  : option (list SearchResult) * Shard :=
  let st := MatchDocuments q limit in
  let sh' := traced st sh in
  if sql_raises E (rows sh) st then (None, sh')
  else
    (Some (sql_limit limit
             (sort_by rank (flat_map (hit_of (rows sh) q) (rows sh)))),
     sh').

(** [SELECT rowid, id, content FROM documents WHERE rowid > ?] *)
Definition sql_select_since (sh : Shard) (n : Z) : option (list Row) * Shard :=
  let st := SelectSince n in
  let sh' := traced st sh in
  if sql_raises E (rows sh) st then (None, sh')
  else (Some (sort_by rowid (filter (fun r => (n <? rowid r)%Z) (rows sh))),
        sh').

(** [SELECT rowid, id, content FROM documents ORDER BY rowid ASC LIMIT ?] *)
Definition sql_select_oldest (sh : Shard) (limit : Z)
  : option (list Row) * Shard :=
  let st := SelectOldest limit in
  let sh' := traced st sh in
  if sql_raises E (rows sh) st then (None, sh')
  else (Some (sql_limit limit (sort_by rowid (rows sh))), sh').

Definition sql_write (sh : Shard) (st : Stmt) (after : option (list Row))
  : bool * Shard :=
  let sh' := traced st sh in
  if sql_raises E (rows sh) st then (false, sh')
  else
    match after with
    | Some l => (true, set_rows l sh')
    | None => (false, sh')
    end.

Definition replace_all (rs : list Row) (vals : list (Z * str)) : list Row :=
  fold_left (fun acc v => replace_row acc (fst v) (snd v)) vals rs.

Definition insert_all (rs : list Row) (vals : list (str * str)) : list Row :=
  fold_left (fun acc v => insert_row acc (Some (fst v)) (snd v)) vals rs.

(** [REPLACE INTO documents(rowid, content) VALUES (?, ?), ...] *)
Definition sql_replace (sh : Shard) (vals : list (JsVal * str))
  : bool * Shard :=
  sql_write sh (ReplaceRows vals)
    (option_map (replace_all (rows sh)) (bind_rowids vals)).

(** [DELETE FROM documents WHERE id IN (?, ...)] *)
Definition sql_delete_ids (sh : Shard) (ids : list JsVal) : bool * Shard :=
  sql_write sh (DeleteIds ids)
    (Some (filter (fun r => negb (id_matches ids r)) (rows sh))).

(** [INSERT INTO documents (id, content) VALUES (?, ?), ...] *)
Definition sql_insert (sh : Shard) (vals : list (JsVal * str))
  : bool * Shard :=
  sql_write sh (InsertRows vals)
    (option_map (insert_all (rows sh)) (bind_ids vals)).

(** [DELETE FROM documents WHERE rowid <= n] *)
Definition sql_delete_upto (sh : Shard) (n : Z) : bool * Shard :=
  sql_write sh (DeleteUpTo n)
    (Some (filter (fun r => negb (rowid r <=? n)%Z) (rows sh))).

(** The content bound for a document:
    [preprocessContent(doc.content || empty).slice(0, 500)]. *)
Definition bound_content (doc : Document) : str :=
  slice0 500
    (preprocessContent (match content doc with JStr s => s | _ => [] end)).

(** [indexDocumentChunk]; [false] when a statement raised.  The source
    writes a chunk of one document with its own statement text, which has
    the meaning of the statement for several. *)
Definition indexDocumentChunk (sh : Shard) (chunk : list Document)
  (t : IdType) : bool * Shard :=
  let vals := map (fun doc => (id doc, bound_content doc)) chunk in
  match t with
  | integer_id => sql_replace sh vals
  | string_id =>
      let '(ok, sh1) := sql_delete_ids sh (map id chunk) in
      if ok then sql_insert sh1 vals else (false, sh1)
  end.

(** The slices [documents.slice(i, i + n)] for [i = 0, n, 2n, ...]. *)
Fixpoint chunks_upto {A} (fuel n : nat) (l : list A) : list (list A) :=
  match fuel, l with
  | _, [] => []
  | 0, _ => []
  | S fuel', _ => firstn n l :: chunks_upto fuel' n (skipn n l)
  end.

Definition chunks {A} (n : nat) (l : list A) : list (list A) :=
  chunks_upto (List.length l) n l.

Definition CHUNK_SIZE : nat := 15.

Fixpoint index_chunks (sh : Shard) (cs : list (list Document)) (t : IdType)
  : bool * Shard :=
  match cs with
  | [] => (true, sh)
  | chunk :: cs' =>
      let '(ok, sh1) := indexDocumentChunk sh chunk t in
      if ok then index_chunks sh1 cs' t else (false, sh1)
  end.

(** [indexDocumentsInternal]; [false] when it raised. *)
Definition indexDocumentsInternal (sh : Shard) (documents : list Document)
  : bool * Shard :=
  match documents with
  | [] => (true, sh)
  | _ =>
      let t := idType_or_string (config sh) in
      let '(ok, sh1) := index_chunks sh (chunks CHUNK_SIZE documents) t in
      if ok then (true, sh1) else (false, logged FailedToIndexDocuments sh1)
  end.

(** [logStorageMetrics]; it catches what it raises. *)
Definition logStorageMetrics (sh : Shard) : Shard :=
  match sql_count sh with
  | (Some _, sh1) => sh1
  | (None, sh1) => logged FailedToLogStorageMetrics sh1
  end.

Definition indexDocuments (sh : Shard) (documents : list Document)
  : IndexResult * Shard :=
  if truthy_bool (isReadOnly (config sh)) then
    ({| success := false; indexed := 0; error := Some ReadOnlyColdStorage;
        details := None |}, sh)
  else
    let t := idType_or_string (config sh) in
    let validation := validateDocuments documents t in
    if negb (valid validation) then
      ({| success := false; indexed := 0; error := Some InvalidDocuments;
          details := Some (ValidationDetails (errors validation)) |},
       logged DocumentValidationFailed sh)
    else
      match data validation with
      | Some (d :: ds) =>
          let '(ok, sh1) := indexDocumentsInternal sh (d :: ds) in
          if ok then
            let sh2 := logStorageMetrics sh1 in
            let sh3 := if SEARCH_CACHE E then invalidateCache sh2 else sh2 in
            ({| success := true; indexed := List.length (d :: ds);
                error := None; details := None |}, sh3)
          else
            ({| success := false; indexed := 0;
                error := Some FailedToProcessDocuments;
                details := Some ErrorMessage |},
             logged ErrorProcessingDocuments sh1)
      | _ =>
          ({| success := true; indexed := 0; error := None;
              details := None |}, sh)
      end.

Definition syncDocuments (sh : Shard) (documents : list Document)
  : SyncResult * Shard :=
  if truthy_bool (isReadOnly (config sh)) then
    ({| sync_success := false; synced := 0;
        sync_error := Some ReadOnlyColdStorage; sync_details := None |}, sh)
  else
    let t := idType_or_string (config sh) in
    let validation := validateDocuments documents t in
    if negb (valid validation) then
      ({| sync_success := false; synced := 0;
          sync_error := Some InvalidDocuments;
          sync_details := Some (ValidationDetails (errors validation)) |},
       logged DocumentValidationFailedDuringSync sh)
    else
      match data validation with
      | Some (d :: ds) =>
          let '(ok, sh1) := indexDocumentsInternal sh (d :: ds) in
          if ok then
            let sh2 := if SEARCH_CACHE E then invalidateCache sh1 else sh1 in
            ({| sync_success := true; synced := List.length (d :: ds);
                sync_error := None; sync_details := None |}, sh2)
          else
            ({| sync_success := false; synced := 0;
                sync_error := Some FailedToSyncDocuments;
                sync_details := Some ErrorMessage |},
             logged ErrorSyncingDocuments sh1)
      | _ =>
          ({| sync_success := true; synced := 0; sync_error := None;
              sync_details := None |}, sh)
      end.

(** The FTS5 query text that [search] builds from the processed query. *)
Definition ftsQuery_of (processedQuery : str) : str :=
  if includes dquote processedQuery || includes (js "'") processedQuery
     || includes (js ";") processedQuery || includes (js "--") processedQuery
  then dquote ++ double_quotes processedQuery ++ dquote
  else if includes (js " ") processedQuery then
    join (js " ") (filter nonempty (split_ws processedQuery))
  else processedQuery.

Definition effectiveMaxResults (cost : Cost) (maxResults : Z) : Z :=
  match cost with
  | high => Z.min maxResults 50
  | medium => Z.min maxResults 200
  | low => maxResults
  end.

(** [search]: the local full-text search, with its fallback. *)
Definition search (sh : Shard) (queryText : str) (maxResults : Z)
  : list SearchResult * Shard :=
  let processedQuery := preprocessQuery queryText in
  match processedQuery with
  | [] => ([], sh)
  | _ =>
      let queryAnalysis := analyzeQuery processedQuery in
      if isTooCommon queryAnalysis then
        ([], logged RejectingExpensiveQuery sh)
      else
        let limit :=
          effectiveMaxResults (estimatedCost queryAnalysis) maxResults in
        match sql_match sh (ftsQuery_of processedQuery) limit with
        | (Some results, sh1) => (results, sh1)
        | (None, sh1) =>
            let sh2 := logged SearchError sh1 in
            let phrase := dquote ++ double_quotes queryText ++ dquote in
            match sql_match sh2 phrase 50 with
            | (Some fallbackResults, sh3) => (fallbackResults, sh3)
            | (None, sh3) => ([], logged FallbackSearchAlsoFailed sh3)
            end
        end
  end.

(** [searchDocuments] for a caller that does not ask for cold storage,
    which is how one shard calls another. *)
Definition searchDocuments_hot (sh : Shard) (q : str) (maxResults : option Z)
  : list SearchResult * Shard :=
  match q with
  | [] => ([], sh)
  | _ => search sh q (match maxResults with Some m => m | None => 100%Z end)
  end.

Definition getStats (sh : Shard) : DOStats * Shard :=
  match sql_count sh with
  | (Some n, sh1) =>
      ({| count := n; estimatedSize := databaseSize E (rows sh);
          stats_isReadOnly := isReadOnly (config sh) |}, sh1)
  | (None, sh1) =>
      ({| count := 0; estimatedSize := 0;
          stats_isReadOnly := Some (truthy_bool (isReadOnly (config sh))) |},
       logged ErrorGettingStats sh1)
  end.

(** [configure], at time [now]. *)
Definition configure (now : Z) (sh : Shard) (newConfig : ConfigureRequest)
  : Shard :=
  let c := merge_config (config sh) newConfig in
  let sh1 := put_config c (set_config c sh) in
  if VITEST E then sh1
  else
    match alarm_time sh1 with
    | Some t => if (t =? 0)%Z then setAlarm (now + 5000) sh1 else sh1
    | None => setAlarm (now + 5000) sh1
    end.

Definition configureRPC := configure.

End Local.

End SearchIndexDO.
Import SearchIndexDO.

(* ------------------------------------------------------------------ *)
(** ** The other shards, and the methods that call them

    A shard reaches the others through the namespaces of its environment:
    [REGION_REPLICA_DO] and [COLD_STORAGE_DO] by name, with an instance
    behind every name, and [LOCAL_REPLICA_DO] by an identifier that
    [idFromString] refuses when it is malformed ([None]).  Every call may
    be lost on the way: [net_down k] says so for the [k]-th call issued,
    and the caller sees a rejected promise.  [rpc_log] records the calls,
    the latest first. *)

Module Cluster.

Inductive Stub :=
| RegionStub (name : str)
| LocalStub (id : str)
| ColdStub (coldStorageName : str).

Inductive Call :=
| CallIndexDocuments (documents : list Document)
| CallSyncDocuments (documents : list Document)
| CallSearchDocuments (q : str) (maxResults : option Z)
| CallGetStats
| CallConfigureRPC (c : ConfigureRequest).

Inductive Reply :=
| Rejected
| IndexReply (r : IndexResult)
| SyncReply (r : SyncResult)
| SearchReply (l : list SearchResult)
| StatsReply (s : DOStats)
| ConfigureReply.

Record RpcEvent := { callee : Stub; call : Call; reply : Reply }.

Record World := {
  REGION_REPLICA_DO : str -> Shard;
  LOCAL_REPLICA_DO : str -> option Shard;
  COLD_STORAGE_DO : str -> Shard;
  net_down : nat -> bool;
  rpc_log : list RpcEvent
}.

Definition shard_at (w : World) (s : Stub) : Shard :=
  match s with
  | RegionStub n => REGION_REPLICA_DO w n
  | LocalStub i =>
      match LOCAL_REPLICA_DO w i with Some sh => sh | None => fresh_shard end
  | ColdStub n => COLD_STORAGE_DO w n
  end.

Definition put_shard (w : World) (s : Stub) (sh : Shard) (e : RpcEvent)
  : World :=
  match s with
  | RegionStub n =>
      {| REGION_REPLICA_DO :=
           fun m => if str_eqb m n then sh else REGION_REPLICA_DO w m;
         LOCAL_REPLICA_DO := LOCAL_REPLICA_DO w;
         COLD_STORAGE_DO := COLD_STORAGE_DO w;
         net_down := net_down w; rpc_log := e :: rpc_log w |}
  | LocalStub i =>
      {| REGION_REPLICA_DO := REGION_REPLICA_DO w;
         LOCAL_REPLICA_DO :=
           fun j => if str_eqb j i then Some sh else LOCAL_REPLICA_DO w j;
         COLD_STORAGE_DO := COLD_STORAGE_DO w;
         net_down := net_down w; rpc_log := e :: rpc_log w |}
  | ColdStub n =>
      {| REGION_REPLICA_DO := REGION_REPLICA_DO w;
         LOCAL_REPLICA_DO := LOCAL_REPLICA_DO w;
         COLD_STORAGE_DO :=
           fun m => if str_eqb m n then sh else COLD_STORAGE_DO w m;
         net_down := net_down w; rpc_log := e :: rpc_log w |}
  end.

Definition record_event (w : World) (e : RpcEvent) : World :=
  {| REGION_REPLICA_DO := REGION_REPLICA_DO w;
     LOCAL_REPLICA_DO := LOCAL_REPLICA_DO w;
     COLD_STORAGE_DO := COLD_STORAGE_DO w;
     net_down := net_down w; rpc_log := e :: rpc_log w |}.

Inductive Outcome := Returned | Threw | OutOfFuel.

Section Remote.

Variable E : Env.

(** What the callee does with a call that reaches it, at time [now]. *)
Definition serve (now : Z) (sh : Shard) (c : Call) : Reply * Shard :=
  match c with
  | CallIndexDocuments docs =>
      let '(r, sh') := indexDocuments E sh docs in (IndexReply r, sh')
  | CallSyncDocuments docs =>
      let '(r, sh') := syncDocuments E sh docs in (SyncReply r, sh')
  | CallSearchDocuments q m =>
      let '(r, sh') := searchDocuments_hot E sh q m in (SearchReply r, sh')
  | CallGetStats =>
      let '(r, sh') := getStats E sh in (StatsReply r, sh')
  | CallConfigureRPC c => (ConfigureReply, configureRPC E now sh c)
  end.

(** One call through a stub. *)
Definition rpc (now : Z) (w : World) (s : Stub) (c : Call) : Reply * World :=
  if net_down w (List.length (rpc_log w)) then
    (Rejected, record_event w {| callee := s; call := c; reply := Rejected |})
  else
    let '(r, sh') := serve now (shard_at w s) c in
    (r, put_shard w s sh' {| callee := s; call := c; reply := r |}).

(** [getReplicaStub]: [inl] is the stub, [inr] what is logged when there
    is none. *)
Definition getReplicaStub (w : World) (replicaInfo : ReplicaInfo)
  : Stub + LogEntry :=
  match type replicaInfo, name replicaInfo, replica_id replicaInfo with
  | region, Some (c :: n), _ => inl (RegionStub (c :: n))
  | local, _, Some (c :: i) =>
      match LOCAL_REPLICA_DO w (c :: i) with
      | Some _ => inl (LocalStub (c :: i))
      | None => inr (FailedToCreateReplicaStub replicaInfo)
      end
  | _, _, _ => inr (InvalidReplicaConfiguration replicaInfo)
  end.

(** [syncToReplica]; [false] when it raised. *)
Definition syncToReplica (now : Z) (sh : Shard) (w : World)
  (replicaInfo : ReplicaInfo) (documents : list Document)
  : bool * Shard * World :=
  match getReplicaStub w replicaInfo with
  | inr e => (true, logged e sh, w)
  | inl stub =>
      match rpc now w stub (CallSyncDocuments documents) with
      | (SyncReply result, w1) =>
          if sync_success result then (true, sh, w1)
          else (false, logged (FailedToSyncToReplica replicaInfo) sh, w1)
      | (_, w1) => (false, logged (FailedToSyncToReplica replicaInfo) sh, w1)
      end
  end.

(** The promises of [syncToReplicas], one per replica in the order of the
    configuration; every call is issued, and [Promise.all] rejects when
    one of them does. *)
Fixpoint sync_all (now : Z) (sh : Shard) (w : World)
  (rs : list ReplicaInfo) (documents : list Document)
  : bool * Shard * World :=
  match rs with
  | [] => (true, sh, w)
  | r :: rs' =>
      let '(ok, sh1, w1) := syncToReplica now sh w r documents in
      let '(oks, sh2, w2) := sync_all now sh1 w1 rs' documents in
      (ok && oks, sh2, w2)
  end.

(** [Math.max(...rowids)] of a list that is not empty; [None] when the
    spread raises. *)
Definition max_of (l : list Z) : option Z :=
  if too_many_arguments E (List.length l) then None
  else
    Some match l with
         | [] => 0%Z
         | x :: l' => fold_left Z.max l' x
         end.

Definition syncToReplicas (now : Z) (sh : Shard) (w : World)
  : Outcome * Shard * World :=
  let last := num_or (lastSyncRowId sh) 0 in
  match sql_select_since E sh last with
  | (None, sh1) => (Threw, sh1, w)
  | (Some [], sh1) => (Returned, sh1, w)
  | (Some newDocs, sh1) =>
      let documents := map to_document newDocs in
      let rs := match replicas (config sh1) with Some l => l | None => [] end in
      let '(ok, sh2, w1) := sync_all now sh1 w rs documents in
      if ok then
        match max_of (map rowid newDocs) with
        | Some maxRowId => (Returned, put_lastSyncRowId maxRowId sh2, w1)
        | None => (Threw, sh2, w1)
        end
      else (Threw, sh2, w1)
  end.

(** [Math.ceil(a / b)] *)
Definition ceil_div (a b : Z) : Z := (- ((- a) / b))%Z.

Definition coldStorageName (prefix : str) (i : Z) : str :=
  prefix ++ js "-" ++ decimal i.

(** The searches of [searchColdStorage], one per cold shard; a rejected
    call counts as no result.  The answers are [allResults]. *)
Fixpoint search_cold_each (now : Z) (sh : Shard) (w : World) (prefix : str)
  (q : str) (resultsPerDO : Z) (indices : list nat)
  : list (list SearchResult) * Shard * World :=
  match indices with
  | [] => ([], sh, w)
  | i :: rest =>
      let n := coldStorageName prefix (Z.of_nat i) in
      let '(r, w1) :=
        rpc now w (ColdStub n) (CallSearchDocuments q (Some resultsPerDO)) in
      let '(here, sh1) :=
        match r with
        | SearchReply l => (l, sh)
        | _ => ([], logged (ErrorSearchingColdStorage n) sh)
        end in
      let '(others, sh2, w2) :=
        search_cold_each now sh1 w1 prefix q resultsPerDO rest in
      (here :: others, sh2, w2)
  end.

(** [for (const results of allResults) coldResults.push(...results)];
    [None] when a spread raises. *)
Fixpoint push_all {A} (coldResults : list A) (allResults : list (list A))
  : option (list A) :=
  match allResults with
  | [] => Some coldResults
  | results :: rest =>
      if too_many_arguments E (List.length results) then None
      else push_all (coldResults ++ results) rest
  end.

(** [results.splice(n)] applied when [results.length > n]. *)
Definition splice_from {A} (n : Z) (l : list A) : list A :=
  if (n <? 0)%Z then firstn (Z.to_nat (Z.max (Z.of_nat (List.length l) + n) 0)) l
  else firstn (Z.to_nat n) l.

Definition truncate_to {A} (maxResults : Z) (l : list A) : list A :=
  if (maxResults <? Z.of_nat (List.length l))%Z then splice_from maxResults l
  else l.

(** [searchColdStorage]; [None] when it raised. *)
Definition searchColdStorage (now : Z) (sh : Shard) (w : World) (q : str)
  (maxResults : Z) : option (list SearchResult) * Shard * World :=
  let prefix := str_or (coldStoragePrefix (config sh)) (js "cold-storage") in
  let currentIndex := num_or (currentColdStorageIndex (config sh)) 0 in
  if (currentIndex =? 0)%Z || (maxResults <=? 0)%Z then (Some [], sh, w)
  else
    let resultsPerDO := Z.max 1 (ceil_div maxResults currentIndex) in
    let '(allResults, sh1, w1) :=
      search_cold_each now sh w prefix q resultsPerDO
        (seq 0 (Z.to_nat currentIndex)) in
    match push_all [] allResults with
    | Some coldResults =>
        (Some (truncate_to maxResults (sort_by rank coldResults)), sh1, w1)
    | None => (None, sh1, w1)
    end.

Definition searchDocuments (now : Z) (sh : Shard) (w : World)
  (params : SearchParams) : list SearchResult * Shard * World :=
  let maxResults :=
    match maxResults params with Some m => m | None => 100%Z end in
  match query params with
  | [] => ([], sh, w)
  | _ =>
      let '(results, sh1) := search E sh (query params) maxResults in
      if truthy_bool (includeCold params)
         && negb (truthy_bool (isReadOnly (config sh1)))
         && truthy_num (currentColdStorageIndex (config sh1))
      then
        match searchColdStorage now sh1 w (query params)
                (Z.max 0 (maxResults - Z.of_nat (List.length results))) with
        | (Some coldResults, sh2, w1) =>
            if too_many_arguments E (List.length coldResults) then
              ([], logged SearchOperationFailed sh2, w1)
            else
              (truncate_to maxResults (sort_by rank (results ++ coldResults)),
               sh2, w1)
        | (None, sh2, w1) => ([], logged SearchOperationFailed sh2, w1)
        end
      else (results, sh1, w)
  end.

End Remote.

End Cluster.
Import Cluster.

(* ------------------------------------------------------------------ *)
(** ** The periodic work of a shard: purge and alarm *)

Module Lifecycle.

Section Periodic.

Variable E : Env.

Definition readOnlyRequest : ConfigureRequest :=
  {| alarmIntervalMs := None; purgeThresholdDocs := None;
     purgeTargetDocs := None; coldStoragePrefix := None;
     coldStorageThresholdDocs := None; replicas := None;
     isReadOnly := Some true; currentColdStorageIndex := None;
     idType := None |}.

(** The loop of [purgeOldData] over [documentsRemaining]; [fuel] bounds
    the number of rounds.  The result carries [coldStorageIndex]. *)
Fixpoint purge_loop (fuel : nat) (now : Z) (w : World) (prefix : str)
  (coldStorageThreshold coldStorageIndex : Z) (documentsRemaining : list Row)
  : Outcome * Z * World :=
  match documentsRemaining with
  | [] => (Returned, coldStorageIndex, w)
  | _ =>
      match fuel with
      | 0 => (OutOfFuel, coldStorageIndex, w)
      | S fuel' =>
          let stub := ColdStub (coldStorageName prefix coldStorageIndex) in
          let '(r, w1) := rpc E now w stub CallGetStats in
          let stats_count :=
            match r with StatsReply s => count s | _ => 0%Z end in
          let availableSpace := (coldStorageThreshold - stats_count)%Z in
          if (availableSpace <=? 0)%Z then
            purge_loop fuel' now w1 prefix coldStorageThreshold
              (coldStorageIndex + 1)%Z documentsRemaining
          else
            let documentsToMove :=
              firstn (Z.to_nat availableSpace) documentsRemaining in
            let rest := skipn (Z.to_nat availableSpace) documentsRemaining in
            let documents := map to_document documentsToMove in
            match rpc E now w1 stub (CallIndexDocuments documents) with
            | (IndexReply result, w2) =>
                if success result then
                  let '(ok, w3) :=
                    if (stats_count =? 0)%Z then
                      match rpc E now w2 stub
                              (CallConfigureRPC readOnlyRequest) with
                      | (ConfigureReply, w3) => (true, w3)
                      | (_, w3) => (false, w3)
                      end
                    else (true, w2) in
                  if ok then
                    purge_loop fuel' now w3 prefix coldStorageThreshold
                      (if (Z.of_nat (List.length documentsToMove)
                           =? availableSpace)%Z
                       then (coldStorageIndex + 1)%Z else coldStorageIndex)
                      rest
                  else (Threw, coldStorageIndex, w3)
                else (Threw, coldStorageIndex, w2)
            | (_, w2) => (Threw, coldStorageIndex, w2)
            end
      end
  end.

(** [purgeTargetDocs || Math.floor(purgeThresholdDocs || count * 0.8)];
    for a count of rows, [Math.floor(count * 0.8)] is the integer
    quotient of [4 * count] by 5. *)
Definition targetDocs_of (c : DOConfig) (count : Z) : Z :=
  num_or (purgeTargetDocs c) (num_or (purgeThresholdDocs c) (4 * count / 5)).

Definition numToPurge_of (c : DOConfig) (count : Z) : Z :=
  (count - targetDocs_of c count)%Z.

Definition coldStorageThreshold_of (c : DOConfig) : Z :=
  num_or (coldStorageThresholdDocs c) (num_or (purgeThresholdDocs c) 100000).

Definition set_currentColdStorageIndex (i : Z) (c : DOConfig) : DOConfig :=
  {| alarmIntervalMs := alarmIntervalMs c;
     purgeThresholdDocs := purgeThresholdDocs c;
     purgeTargetDocs := purgeTargetDocs c;
     coldStoragePrefix := coldStoragePrefix c;
     coldStorageThresholdDocs := coldStorageThresholdDocs c;
     replicas := replicas c; isReadOnly := isReadOnly c;
     currentColdStorageIndex := Some i; idType := idType c |}.

(** Whether [purgeOldData] goes on after it has read count and size. *)
Definition thresholdReached (c : DOConfig) (count size : Z) : bool :=
  (truthy_num (purgeThresholdDocs c)
   && (num_or (purgeThresholdDocs c) 0 <=? count)%Z)
  || (9000000000 <? size)%Z.

Definition purgeOldData (fuel : nat) (now : Z) (sh : Shard) (w : World)
  : Outcome * Shard * World :=
  match sql_count E sh with
  | (None, sh1) => (Threw, sh1, w)
  | (Some count, sh1) =>
      let c := config sh1 in
      if negb (thresholdReached c count (databaseSize E (rows sh1))) then
        (Returned, sh1, w)
      else
        match sql_select_oldest E sh1 (numToPurge_of c count) with
        | (None, sh2) => (Threw, sh2, w)
        | (Some [], sh2) => (Returned, sh2, w)
        | (Some docsToPurge, sh2) =>
            let index0 := num_or (currentColdStorageIndex c) 0 in
            let prefix := str_or (coldStoragePrefix c) (js "cold-storage") in
            match purge_loop fuel now w prefix (coldStorageThreshold_of c)
                    index0 docsToPurge with
            | (Returned, coldStorageIndex, w1) =>
                let sh3 :=
                  if (coldStorageIndex =? index0)%Z then sh2
                  else
                    set_config
                      (set_currentColdStorageIndex coldStorageIndex
                         (config sh2))
                      (put_coldStorageIndex coldStorageIndex sh2) in
                match rev docsToPurge with
                | lastDoc :: _ =>
                    match sql_delete_upto E sh3 (rowid lastDoc) with
                    | (true, sh4) => (Returned, sh4, w1)
                    | (false, sh4) =>
                        (Threw, logged FailedToMoveDocumentsToColdStorage sh4,
                         w1)
                    end
                | [] => (Returned, sh3, w1)
                end
            | (Threw, _, w1) =>
                (Threw, logged FailedToMoveDocumentsToColdStorage sh2, w1)
            | (OutOfFuel, _, w1) => (OutOfFuel, sh2, w1)
            end
        end
  end.

(** The two steps of [alarm]: each one runs only when it is configured. *)
Definition replication_step (now : Z) (sh : Shard) (w : World)
  : Outcome * Shard * World :=
  match replicas (config sh) with
  | Some (_ :: _) => syncToReplicas E now sh w
  | _ => (Returned, sh, w)
  end.

Definition lifecycle_step (fuel : nat) (now : Z) (sh : Shard) (w : World)
  : Outcome * Shard * World :=
  if truthy_num (purgeThresholdDocs (config sh)) then
    purgeOldData fuel now sh w
  else (Returned, sh, w).

(** [alarm]: one firing of the periodic alarm, at time [now].  Nothing in
    it catches what a step raises.  [alarm_time] keeps the time of the
    alarm that fired until [setAlarm] writes the next one. *)
Definition alarm (fuel : nat) (now : Z) (sh : Shard) (w : World)
  : Outcome * Shard * World :=
  if truthy_bool (isReadOnly (config sh)) then (Returned, sh, w)
  else
    match replication_step now sh w with
    | (Returned, sh1, w1) =>
        match lifecycle_step fuel now sh1 w1 with
        | (Returned, sh2, w2) =>
            let interval := num_or (alarmIntervalMs (config sh2)) 60000 in
            (Returned, setAlarm (now + interval) sh2, w2)
        | failed => failed
        end
    | failed => failed
    end.

End Periodic.

End Lifecycle.
Import Lifecycle.

(* ------------------------------------------------------------------ *)
(** ** Notions used to state the properties *)

Module Notions.

(** A word as the filters see it: not empty, made of word characters. *)
Definition is_token (w : str) : Prop :=
  w <> [] /\ Forall (fun c => is_word c = true) w.

(** The query is emptied by the query filter, or rejected as too
    common: [search] returns before it runs a statement. *)
Definition never_matched (q : str) : Prop :=
  preprocessQuery q = []
  \/ isTooCommon (analyzeQuery (preprocessQuery q)) = true.

(** The statements that change the table. *)
Definition is_write (st : Stmt) : bool :=
  match st with
  | ReplaceRows _ | DeleteIds _ | InsertRows _ | DeleteUpTo _ => true
  | _ => false
  end.

(** The statement that [search] runs first for a query, if it runs one. *)
Definition first_statement (q : str) (m : Z) : Stmt :=
  MatchDocuments (ftsQuery_of (preprocessQuery q))
    (effectiveMaxResults
       (estimatedCost (analyzeQuery (preprocessQuery q))) m).

(** A call of [syncDocuments] or of [indexDocuments] on another shard
    that did not come back with [success = true]: the call was lost, or
    the callee answered with a failure. *)
Definition failed_sync (e : RpcEvent) : bool :=
  match call e, reply e with
  | CallSyncDocuments _, SyncReply r => negb (sync_success r)
  | CallSyncDocuments _, _ => true
  | _, _ => false
  end.

Definition failed_index (e : RpcEvent) : bool :=
  match call e, reply e with
  | CallIndexDocuments _, IndexReply r => negb (success r)
  | CallIndexDocuments _, _ => true
  | _, _ => false
  end.

(** [sh] with another error log. *)
Definition relog (l : list LogEntry) (sh : Shard) : Shard :=
  {| config := config sh; rows := rows sh; stored_config := stored_config sh;
     lastSyncRowId := lastSyncRowId sh;
     stored_coldStorageIndex := stored_coldStorageIndex sh;
     alarm_time := alarm_time sh; sql_trace := sql_trace sh;
     error_log := l; cache_invalidations := cache_invalidations sh |}.

(** [sh'] is [sh] with more entries in its error log. *)
Definition only_logged (sh sh' : Shard) : Prop :=
  exists new, sh' = relog (new ++ error_log sh) sh.

(** The rows that [syncToReplicas] finds past the cursor. *)
Definition newDocs_of (sh : Shard) : list Row :=
  sort_by rowid
    (filter (fun r => (num_or (lastSyncRowId sh) 0 <? rowid r)%Z) (rows sh)).

(** The shard holds a row with this [id]. *)
Definition holds_id (sh : Shard) (s : str) : Prop :=
  exists r, In r (rows sh) /\ row_id r = Some s.

(** Ascending in a key. *)
Definition key_le {A} (key : A -> Z) (a b : A) : Prop := (key a <= key b)%Z.

(** The same on a list of rows. *)
Definition held (rs : list Row) (s : str) : Prop :=
  exists r, In r rs /\ row_id r = Some s.

(** Some cold shard holds the [id] of the row. *)
Definition in_cold_storage (w : World) (r : Row) : Prop :=
  exists s coldStorageName,
    row_id r = Some s /\ holds_id (COLD_STORAGE_DO w coldStorageName) s.

(** The documents handed to [indexDocuments] by the calls of a log, in
    the order of the calls; a log has the latest call first. *)
Definition indexed_documents (log : list RpcEvent) : list Document :=
  flat_map (fun e => match call e with
                     | CallIndexDocuments documents => documents
                     | _ => []
                     end) (rev log).

(** What the second statement of [purgeOldData] answers on a table:
    the rows in ascending rowid, cut by the limit [numToPurge]. *)
Definition docsToPurge_of (c : DOConfig) (rs : list Row) : list Row :=
  sql_limit (numToPurge_of c (Z.of_nat (List.length rs))) (sort_by rowid rs).

End Notions.
Import Notions.

(* ------------------------------------------------------------------ *)
(** ** Deployments used in the examples *)

Module Scenarios.

(** An engine that never raises; a row matches a query when its content
    contains the query text, all with the same rank. *)
Definition quiet_env : Env :=
  {| SEARCH_CACHE := true; VITEST := false;
     sql_raises := fun _ _ => false;
     fts5_rank := fun _ q r =>
       if includes q (row_content r) then Some 0%Z else None;
     databaseSize := fun rs => (4096 + 600 * Z.of_nat (List.length rs))%Z;
     max_arguments := 120000 |}.

(** An engine that raises on the two statements with which the periodic
    work reads the table: the count of the documents and the rows past
    the cursor. *)
Definition read_fault_env : Env :=
  {| SEARCH_CACHE := true; VITEST := false;
     sql_raises := fun _ st =>
       match st with
       | CountDocuments | SelectSince _ => true
       | _ => false
       end;
     fts5_rank := fun _ q r =>
       if includes q (row_content r) then Some 0%Z else None;
     databaseSize := fun rs => (4096 + 600 * Z.of_nat (List.length rs))%Z;
     max_arguments := 120000 |}.

(** Every other shard is fresh and every call arrives. *)
Definition calm_world : World :=
  {| REGION_REPLICA_DO := fun _ => fresh_shard;
     LOCAL_REPLICA_DO := fun _ => None;
     COLD_STORAGE_DO := fun _ => fresh_shard;
     net_down := fun _ => false; rpc_log := [] |}.

(** An engine on which a [MATCH] raises unless the query is a quoted
    phrase, and on which a phrase matches every row, ranked by rowid. *)
Definition phrase_only_env : Env :=
  {| SEARCH_CACHE := true; VITEST := false;
     sql_raises := fun _ st =>
       match st with
       | MatchDocuments q _ => negb (starts_with dquote q)
       | _ => false
       end;
     fts5_rank := fun _ _ r => Some (rowid r);
     databaseSize := fun rs => (4096 + 600 * Z.of_nat (List.length rs))%Z;
     max_arguments := 120000 |}.

Definition widget_row (i : nat) : Row :=
  {| rowid := Z.of_nat (S i);
     row_id := Some (js "w" ++ decimal (Z.of_nat i));
     row_content := js "widget" |}.

(** A shard that holds sixty documents. *)
Definition sixty_widgets : Shard :=
  {| config := empty_config; rows := map widget_row (seq 0 60);
     stored_config := None; lastSyncRowId := None;
     stored_coldStorageIndex := None; alarm_time := None; sql_trace := [];
     error_log := []; cache_invalidations := 0 |}.

(** A cold shard after [Configure({isReadOnly: true})], the request that
    asks to make it writable again, and a document. *)
Definition sealed_shard : Shard :=
  configure quiet_env 0 fresh_shard
    {| alarmIntervalMs := None; purgeThresholdDocs := None;
       purgeTargetDocs := None; coldStoragePrefix := None;
       coldStorageThresholdDocs := None; replicas := None;
       isReadOnly := Some true; currentColdStorageIndex := None;
       idType := None |}.

Definition reopenRequest : ConfigureRequest :=
  {| alarmIntervalMs := None; purgeThresholdDocs := None;
     purgeTargetDocs := None; coldStoragePrefix := None;
     coldStorageThresholdDocs := None; replicas := None;
     isReadOnly := Some false; currentColdStorageIndex := None;
     idType := None |}.

Definition tutorial_doc : Document :=
  {| id := JStr (js "a");
     content := JStr (js "JavaScript programming tutorial") |}.

(** A primary with one replica in region [weur] and one document indexed;
    in [sealed_replica_world] that replica is read-only, so that it
    answers [syncDocuments] with a failure. *)
Definition weur : ReplicaInfo :=
  {| type := region; name := Some (js "weur"); replica_id := None |}.

Definition replicated_primary : Shard :=
  snd (indexDocuments quiet_env
         (configure quiet_env 0 fresh_shard
            {| alarmIntervalMs := Some 30000%Z; purgeThresholdDocs := None;
               purgeTargetDocs := None; coldStoragePrefix := None;
               coldStorageThresholdDocs := None; replicas := Some [weur];
               isReadOnly := None; currentColdStorageIndex := None;
               idType := None |})
         [tutorial_doc]).

Definition sealed_replica_world : World :=
  {| REGION_REPLICA_DO := fun _ => sealed_shard;
     LOCAL_REPLICA_DO := fun _ => None;
     COLD_STORAGE_DO := fun _ => fresh_shard;
     net_down := fun _ => false; rpc_log := [] |}.

(** A world in which every call is lost. *)
Definition dark_world : World :=
  {| REGION_REPLICA_DO := fun _ => fresh_shard;
     LOCAL_REPLICA_DO := fun _ => None;
     COLD_STORAGE_DO := fun _ => fresh_shard;
     net_down := fun _ => true; rpc_log := [] |}.

Definition purge_doc (i : nat) : Document :=
  {| id := JStr (js "purge-test-" ++ decimal (Z.of_nat i));
     content :=
       JStr (js "Document " ++ decimal (Z.of_nat i)
             ++ js " for purge testing entry" ++ decimal (Z.of_nat i)) |}.

(** The primary of the rolling cold storage scenario: thresholds 20, 10
    and 5, and 25 documents indexed. *)
Definition rolling_primary : Shard :=
  snd (indexDocuments quiet_env
         (configure quiet_env 0 fresh_shard
            {| alarmIntervalMs := None; purgeThresholdDocs := Some 20%Z;
               purgeTargetDocs := Some 10%Z; coldStoragePrefix := None;
               coldStorageThresholdDocs := Some 5%Z; replicas := None;
               isReadOnly := None; currentColdStorageIndex := None;
               idType := None |})
         (map purge_doc (seq 0 25))).


(** A primary with a purge threshold of 20, a purge target of 40 above
    it, and 25 documents indexed. *)
Definition overtargeted_primary : Shard :=
  snd (indexDocuments quiet_env
         (configure quiet_env 0 fresh_shard
            {| alarmIntervalMs := None; purgeThresholdDocs := Some 20%Z;
               purgeTargetDocs := Some 40%Z; coldStoragePrefix := None;
               coldStorageThresholdDocs := None; replicas := None;
               isReadOnly := None; currentColdStorageIndex := None;
               idType := None |})
         (map purge_doc (seq 0 25))).

End Scenarios.
Import Scenarios.

(* ================================================================== *)
(** * Properties *)

Unset Implicit Arguments.

(** ** The scenarios of the filters *)

Example filter_scenarios :
  preprocessContent (js "JavaScript programming tutorial")
  = js "javascript programming tutorial"
  /\ preprocessContent (js "The cat is funny meme") = []
  /\ preprocessQuery (js "the and or cat meme") = js "cat meme"
  /\ commonTermsRatio (analyzeQuery (js "cat meme")) = (2 # 2)%Q
  /\ estimatedCost (analyzeQuery (js "javascript tutorial")) = low
  /\ estimatedCost (analyzeQuery (js "javascript cat tutorial")) = medium
  /\ estimatedCost (analyzeQuery (js "javascript cat")) = high.
Proof. vm_compute. repeat split; reflexivity. Qed.

(** ** Words and filters *)

Section Words.

Lemma word_not_space (c : N) : is_word c = true -> is_space c = false.
Proof.
  unfold is_word, is_space, is_digit, is_upper, is_lower, between.
  rewrite !orb_true_iff, !andb_true_iff, !N.leb_le, N.eqb_eq.
  intros H.
  rewrite !orb_false_iff, !andb_false_iff, !N.leb_gt, !N.eqb_neq.
  lia.
Qed.

Lemma word_below_128 (c : N) : is_word c = true -> (c < 128)%N.
Proof.
  unfold is_word, is_digit, is_upper, is_lower, between.
  rewrite !orb_true_iff, !andb_true_iff, !N.leb_le, N.eqb_eq. lia.
Qed.

Lemma lower_unit_fixed (c : N) :
  is_word c = true -> is_upper c = false -> lower_unit c = [c].
Proof.
  intros Hw Hu. unfold lower_unit. rewrite Hu.
  apply word_below_128 in Hw.
  destruct (N.eqb_spec c 8490); [lia|].
  destruct (N.eqb_spec c 304); [lia|]. reflexivity.
Qed.

Lemma lower_unit_no_upper (c d : N) :
  In d (lower_unit c) -> is_upper d = false.
Proof.
  unfold lower_unit.
  destruct (is_upper c) eqn:Hu.
  - intros [<-|[]]. revert Hu. unfold is_upper, between.
    rewrite andb_true_iff, andb_false_iff, !N.leb_le, !N.leb_gt. lia.
  - destruct (c =? 8490)%N; [intros [<-|[]]; reflexivity|].
    destruct (c =? 304)%N; [intros [<-|[<-|[]]]; reflexivity|].
    intros [<-|[]]; exact Hu.
Qed.

Lemma toLowerCase_no_upper (s : str) :
  Forall (fun d => is_upper d = false) (toLowerCase s).
Proof.
  apply Forall_forall. intros d Hd. unfold toLowerCase in Hd.
  apply in_flat_map in Hd. destruct Hd as (c & _ & Hd).
  exact (lower_unit_no_upper _ _ Hd).
Qed.

Lemma toLowerCase_fixed (s : str) :
  Forall (fun c => lower_unit c = [c]) s -> toLowerCase s = s.
Proof.
  induction 1 as [|c s Hc _ IH]; [reflexivity|].
  unfold toLowerCase in *. simpl. rewrite Hc, IH. reflexivity.
Qed.

Lemma toLowerCase_length_word (w : str) :
  Forall (fun c => is_word c = true) w ->
  List.length (toLowerCase w) = List.length w.
Proof.
  induction 1 as [|c s Hc _ IH]; [reflexivity|].
  unfold toLowerCase in *. simpl. rewrite length_app, IH.
  apply word_below_128 in Hc. unfold lower_unit.
  destruct (is_upper c); [reflexivity|].
  destruct (N.eqb_spec c 8490); [lia|].
  destruct (N.eqb_spec c 304); [lia|]. reflexivity.
Qed.

Lemma replace_nonword_from_in (b : bool) (s : str) (c : N) :
  In c (replace_nonword_from b s) -> In c s \/ c = 32%N.
Proof.
  revert b. induction s as [|d s IH]; intros b; simpl; [tauto|].
  destruct (is_word d || is_space d).
  - intros [<-|H]; [auto|]. destruct (IH _ H); auto.
  - destruct b.
    + intros H. destruct (IH _ H); auto.
    + intros [<-|H]; [auto|]. destruct (IH _ H); auto.
Qed.

Lemma replace_nonword_from_class (b : bool) (s : str) :
  Forall (fun c => is_word c || is_space c = true) (replace_nonword_from b s).
Proof.
  revert b. induction s as [|d s IH]; intros b; simpl; [constructor|].
  destruct (is_word d || is_space d) eqn:Hd.
  - constructor; auto.
  - destruct b; [apply IH|]. constructor; [reflexivity|apply IH].
Qed.

Lemma replace_nonword_from_fixed (b : bool) (s : str) :
  Forall (fun c => is_word c || is_space c = true) s ->
  replace_nonword_from b s = s.
Proof.
  intros H. revert b. induction H as [|c s Hc _ IH]; intros b; simpl.
  - reflexivity.
  - rewrite Hc, IH. reflexivity.
Qed.

Lemma split_ws_from_not_nil (b : bool) (s : str) : split_ws_from b s <> [].
Proof.
  revert b. induction s as [|c s IH]; intros b; simpl; [discriminate|].
  destruct (is_space c).
  - destruct b; [apply IH|discriminate].
  - destruct (split_ws_from false s); discriminate.
Qed.

Lemma split_ws_from_in (b : bool) (s w : str) (c : N) :
  In w (split_ws_from b s) -> In c w -> In c s /\ is_space c = false.
Proof.
  revert b w. induction s as [|d s IH]; intros b w; simpl.
  - intros [<-|[]] [].
  - destruct (is_space d) eqn:Hd.
    + destruct b.
      * intros Hw Hc. destruct (IH _ _ Hw Hc). auto.
      * intros [<-|Hw] Hc; [destruct Hc|]. destruct (IH _ _ Hw Hc). auto.
    + specialize (IH false).
      destruct (split_ws_from false s) as [|w0 ws].
      * intros [<-|[]] [<-|[]]. auto.
      * intros [<-|Hw] Hc.
        -- destruct Hc as [<-|Hc]; [auto|].
           destruct (IH w0 (or_introl eq_refl) Hc). auto.
        -- destruct (IH w (or_intror Hw) Hc). auto.
Qed.

(** A word of a text is not empty and is made of word characters, each
    of them a character of the text. *)
Lemma words_of_spec (s w : str) :
  In w (words_of s) ->
  w <> [] /\ Forall (fun c => is_word c = true /\ In c s) w.
Proof.
  unfold words_of. rewrite filter_In. intros [Hw Hne]. split.
  - destruct w; [discriminate|discriminate].
  - apply Forall_forall. intros c Hc.
    destruct (split_ws_from_in _ _ _ _ Hw Hc) as [Hin Hsp].
    pose proof (replace_nonword_from_class false s) as Hcl.
    rewrite Forall_forall in Hcl. specialize (Hcl _ Hin).
    rewrite Hsp, orb_false_r in Hcl. split; [exact Hcl|].
    destruct (replace_nonword_from_in _ _ _ Hin) as [H0|H0]; [assumption|].
    subst c. discriminate.
Qed.

Lemma words_of_tokens (s : str) : Forall is_token (words_of s).
Proof.
  apply Forall_forall. intros w Hw.
  destruct (words_of_spec _ _ Hw) as [Hne Hall]. split; [assumption|].
  eapply Forall_impl; [|exact Hall]. simpl. tauto.
Qed.

Lemma split_ws_from_flag (s : str) (c : N) :
  is_space c = false ->
  split_ws_from true (c :: s) = split_ws_from false (c :: s).
Proof. intros H. simpl. rewrite H. reflexivity. Qed.

Lemma split_ws_token_app (w r : str) :
  Forall (fun c => is_word c = true) w ->
  split_ws_from false (w ++ r) =
  match split_ws_from false r with
  | h :: t => (w ++ h) :: t
  | [] => [w]
  end.
Proof.
  induction 1 as [|c w Hc _ IH]; simpl.
  - destruct (split_ws_from false r) eqn:Hr; [|reflexivity].
    destruct (split_ws_from_not_nil _ _ Hr).
  - rewrite (word_not_space _ Hc), IH.
    destruct (split_ws_from false r); reflexivity.
Qed.

Lemma join_cons (w : str) (ws : list str) :
  ws <> [] -> join (js " ") (w :: ws) = w ++ js " " ++ join (js " ") ws.
Proof. destruct ws; [congruence|reflexivity]. Qed.

Lemma split_ws_join (ws : list str) :
  Forall is_token ws -> ws <> [] -> split_ws (join (js " ") ws) = ws.
Proof.
  unfold split_ws.
  induction 1 as [|w ws [Hne Hw] Hws IH]; [congruence|]. intros _.
  destruct ws as [|w' ws'].
  - simpl. rewrite <- (app_nil_r w) at 1.
    rewrite (split_ws_token_app _ _ Hw). simpl. rewrite app_nil_r. reflexivity.
  - rewrite join_cons by discriminate.
    rewrite (split_ws_token_app _ _ Hw).
    change (js " " ++ join (js " ") (w' :: ws'))
      with (32%N :: join (js " ") (w' :: ws')).
    cbn [split_ws_from]. change (is_space 32) with true. cbn iota.
    assert (Hstart : exists c r, join (js " ") (w' :: ws') = c :: r
                                 /\ is_space c = false).
    { inversion Hws as [|? ? [Hne' Hw'] _]; subst.
      destruct w' as [|c w'']; [congruence|].
      inversion Hw'; subst.
      destruct ws'; simpl; eauto using word_not_space. }
    destruct Hstart as (c & r & Hj & Hc).
    rewrite Hj, (split_ws_from_flag _ _ Hc), <- Hj, IH by discriminate.
    rewrite app_nil_r. reflexivity.
Qed.

Lemma join_class (ws : list str) :
  Forall is_token ws ->
  Forall (fun c => is_word c = true \/ c = 32%N) (join (js " ") ws).
Proof.
  induction 1 as [|w ws [_ Hw] _ IH]; [constructor|].
  assert (Hw' : Forall (fun c => is_word c = true \/ c = 32%N) w)
    by (eapply Forall_impl; [|exact Hw]; simpl; auto).
  destruct ws; [exact Hw'|].
  rewrite join_cons by discriminate.
  apply Forall_app; split; [exact Hw'|].
  constructor; [right; reflexivity|exact IH].
Qed.

Lemma filter_nonempty_tokens (ws : list str) :
  Forall is_token ws -> filter nonempty ws = ws.
Proof.
  induction 1 as [|w ws [Hne _] _ IH]; [reflexivity|].
  simpl. rewrite IH. destruct w; [congruence|reflexivity].
Qed.

(** Joining words with single spaces and taking the words again gives
    the words back. *)
Lemma words_of_join (ws : list str) :
  Forall is_token ws -> words_of (join (js " ") ws) = ws.
Proof.
  intros H. unfold words_of, replace_nonword.
  rewrite replace_nonword_from_fixed.
  - destruct ws as [|w ws']; [reflexivity|].
    rewrite split_ws_join by (auto; discriminate).
    apply filter_nonempty_tokens, H.
  - eapply Forall_impl; [|exact (join_class _ H)]. simpl.
    intros c [Hc|Hc]; rewrite Hc; [reflexivity|]. subst c. reflexivity.
Qed.

Lemma trimStart_fixed (s : str) :
  (forall c r, s = c :: r -> is_space c = false) -> trimStart s = s.
Proof.
  destruct s as [|c r]; [reflexivity|]. intros H. simpl.
  rewrite (H c r eq_refl). reflexivity.
Qed.

Lemma join_first (ws : list str) (c : N) (r : str) :
  Forall is_token ws -> join (js " ") ws = c :: r -> is_word c = true.
Proof.
  intros H. destruct H as [|w ws [Hne Hw] Hws]; [discriminate|].
  destruct w as [|d w']; [congruence|]. inversion Hw; subst.
  destruct ws; simpl; intros [= <- _]; assumption.
Qed.

Lemma join_last (ws : list str) (c : N) (r : str) :
  Forall is_token ws -> rev (join (js " ") ws) = c :: r -> is_word c = true.
Proof.
  intros H. revert c r.
  induction H as [|w ws [Hne Hw] Hws IH]; intros c r; [discriminate|].
  destruct ws as [|w' ws'].
  - simpl. intros Hr.
    assert (Hin : In c (rev w)) by (rewrite Hr; left; reflexivity).
    apply in_rev in Hin. rewrite Forall_forall in Hw. auto.
  - rewrite join_cons by discriminate. rewrite !rev_app_distr.
    destruct (rev (join (js " ") (w' :: ws'))) as [|d r'] eqn:Hj.
    + exfalso. apply (f_equal (@List.length N)) in Hj.
      rewrite length_rev in Hj.
      inversion Hws as [|? ? [Hne' _] _]; subst.
      destruct w' as [|e w'']; [congruence|].
      destruct ws'; simpl in Hj; [discriminate|].
      rewrite length_app in Hj. simpl in Hj. lia.
    + simpl. intros [= <- _]. apply (IH d r'). reflexivity.
Qed.

Lemma trim_join (ws : list str) :
  Forall is_token ws -> trim (join (js " ") ws) = join (js " ") ws.
Proof.
  intros H. unfold trim.
  rewrite (trimStart_fixed (join (js " ") ws)).
  - rewrite trimStart_fixed; [apply rev_involutive|].
    intros c r Hr. apply word_not_space. exact (join_last _ _ _ H Hr).
  - intros c r Hr. apply word_not_space. exact (join_first _ _ _ H Hr).
Qed.

Lemma filter_filter {A} (f : A -> bool) (l : list A) :
  filter f (filter f l) = filter f l.
Proof.
  induction l as [|x l IH]; [reflexivity|]. simpl.
  destruct (f x) eqn:Hx; simpl; rewrite ?Hx, IH; reflexivity.
Qed.

Lemma filter_tokens (f : str -> bool) (ws : list str) :
  Forall is_token ws -> Forall is_token (filter f ws).
Proof.
  intros H. apply Forall_forall. intros w Hw.
  apply filter_In in Hw. rewrite Forall_forall in H. apply H, Hw.
Qed.

Lemma preprocessQuery_eq (q : str) :
  preprocessQuery q = join (js " ") (filter keep_query_word (words_of q)).
Proof.
  rewrite <- (trim_join _ (filter_tokens keep_query_word _ (words_of_tokens q))).
  destruct q; reflexivity.
Qed.

Lemma preprocessContent_eq (x : str) :
  preprocessContent x =
  join (js " ") (filter keep_content_word (words_of (toLowerCase x))).
Proof.
  rewrite <- (trim_join _ (filter_tokens keep_content_word _
                             (words_of_tokens (toLowerCase x)))).
  destruct x; reflexivity.
Qed.

Lemma words_of_preprocessQuery (q : str) :
  words_of (preprocessQuery q) = filter keep_query_word (words_of q).
Proof.
  rewrite preprocessQuery_eq.
  apply words_of_join, filter_tokens, words_of_tokens.
Qed.

Lemma lowered_words_fixed (x : str) (ws : list str) :
  Forall (fun w => In w (words_of (toLowerCase x))) ws ->
  toLowerCase (join (js " ") ws) = join (js " ") ws.
Proof.
  intros H. apply toLowerCase_fixed.
  assert (Hws : Forall (Forall (fun c => lower_unit c = [c])) ws).
  { eapply Forall_impl; [|exact H]. intros w Hw.
    destruct (words_of_spec _ _ Hw) as [_ Hall].
    eapply Forall_impl; [|exact Hall]. intros c [Hc Hin].
    apply lower_unit_fixed; [exact Hc|].
    pose proof (toLowerCase_no_upper x) as Hno.
    rewrite Forall_forall in Hno. auto. }
  clear H. induction Hws as [|w ws Hw _ IH]; [constructor|].
  destruct ws; [exact Hw|].
  rewrite join_cons by discriminate.
  apply Forall_app; split; [exact Hw|].
  constructor; [reflexivity|exact IH].
Qed.

End Words.

(** C9.  Both content filters are idempotent, and the words of a
    filtered query are exactly the retained words of the query, each
    unit for unit as it was written (so in its original case). *)
Theorem content_filters_idempotent (x : str) :
  preprocessContent (preprocessContent x) = preprocessContent x
  /\ preprocessQuery (preprocessQuery x) = preprocessQuery x
  /\ words_of (preprocessQuery x) = filter keep_query_word (words_of x)
  /\ Forall (fun w => In w (words_of x)) (words_of (preprocessQuery x)).
Proof.
  split; [|split; [|split]].
  - rewrite (preprocessContent_eq (preprocessContent x)).
    rewrite (preprocessContent_eq x).
    set (ws := filter keep_content_word (words_of (toLowerCase x))).
    assert (Hin : Forall (fun w => In w (words_of (toLowerCase x))) ws).
    { apply Forall_forall. intros w Hw. apply filter_In in Hw. tauto. }
    rewrite (lowered_words_fixed x ws Hin).
    rewrite (words_of_join ws
               (filter_tokens _ _ (words_of_tokens (toLowerCase x)))).
    unfold ws. rewrite filter_filter. reflexivity.
  - rewrite (preprocessQuery_eq (preprocessQuery x)).
    rewrite words_of_preprocessQuery, filter_filter.
    symmetry. apply preprocessQuery_eq.
  - apply words_of_preprocessQuery.
  - rewrite words_of_preprocessQuery. apply Forall_forall.
    intros w Hw. apply filter_In in Hw. tauto.
Qed.

Example preprocessQuery_keeps_case :
  preprocessQuery (js "The JavaScript x Tutorial, for YOU") =
  js "JavaScript Tutorial".
Proof. vm_compute. reflexivity. Qed.

Section QueryWords.

Lemma keep_query_word_length (w : str) :
  is_token w -> keep_query_word w = true -> 2 <= List.length w.
Proof.
  intros [_ Hw]. unfold keep_query_word.
  rewrite andb_true_iff, (toLowerCase_length_word w Hw), Nat.leb_le. tauto.
Qed.

Lemma short_word_dropped (w : str) :
  is_token w -> List.length w <= 1 -> keep_query_word w = false.
Proof.
  intros [_ Hw] Hlen. unfold keep_query_word.
  rewrite (toLowerCase_length_word w Hw).
  destruct (Nat.leb_spec 2 (List.length w)); [lia|reflexivity].
Qed.

Lemma short_words_filtered (ws : list str) :
  Forall is_token ws -> Forall (fun w => List.length w <= 1) ws ->
  filter keep_query_word ws = [].
Proof.
  induction 1 as [|w ws Hw _ IH]; [reflexivity|].
  intros Hs. inversion Hs; subst. simpl.
  rewrite (short_word_dropped w Hw) by assumption. auto.
Qed.

Lemma str_eqb_eq (a b : str) : str_eqb a b = true <-> a = b.
Proof.
  unfold str_eqb. destruct (list_eq_dec N.eq_dec a b); split;
    congruence.
Qed.

Lemma has_In (set : list str) (w : str) : has set w = true <-> In w set.
Proof.
  unfold has. rewrite existsb_exists. split.
  - intros (s & Hs & He). apply str_eqb_eq in He. subst. exact Hs.
  - intros H. exists w. split; [exact H|]. apply str_eqb_eq. reflexivity.
Qed.

Lemma no_stop_word_starts_with_z (r : str) :
  has STOP_WORDS (122%N :: r) = false.
Proof.
  destruct (has STOP_WORDS (122%N :: r)) eqn:H; [|reflexivity].
  apply has_In in H.
  assert (Hall : forallb (fun s => negb (hd 0%N s =? 122)%N) STOP_WORDS
                 = true) by (vm_compute; reflexivity).
  rewrite forallb_forall in Hall. specialize (Hall _ H).
  simpl in Hall. discriminate.
Qed.

Lemma repeat_z_token (n : nat) : is_token (repeat 122%N (S n)).
Proof.
  split; [discriminate|].
  apply Forall_forall. intros c Hc. apply repeat_spec in Hc. subst.
  reflexivity.
Qed.

(** A word of any length above one passes the query filter. *)
Lemma long_word_kept (n : nat) :
  preprocessQuery (repeat 122%N (n + 2)) = repeat 122%N (n + 2).
Proof.
  rewrite preprocessQuery_eq.
  replace (n + 2) with (S (S n)) by lia.
  pose proof (repeat_z_token (S n)) as Htok.
  assert (Hw : words_of (repeat 122%N (S (S n))) = [repeat 122%N (S (S n))]).
  { apply (words_of_join [repeat 122%N (S (S n))]). constructor; auto. }
  rewrite Hw. cbn [filter].
  assert (Hk : keep_query_word (repeat 122%N (S (S n))) = true).
  { unfold keep_query_word.
    rewrite toLowerCase_fixed.
    - rewrite repeat_length. simpl repeat.
      rewrite no_stop_word_starts_with_z. reflexivity.
    - apply Forall_forall. intros c Hc. apply repeat_spec in Hc. subst.
      reflexivity. }
  rewrite Hk. reflexivity.
Qed.

(** The query filter keeps every word of two or more units that is not
    a stop word, whatever its length. *)
Lemma word_of_any_length_kept (q t : str) :
  In t (words_of q) -> 2 <= List.length t ->
  has STOP_WORDS (toLowerCase t) = false ->
  In t (words_of (preprocessQuery q)).
Proof.
  intros Hin Hlen Hstop. rewrite words_of_preprocessQuery.
  apply filter_In. split; [exact Hin|].
  pose proof (words_of_tokens q) as Htok. rewrite Forall_forall in Htok.
  destruct (Htok t Hin) as [_ Hw].
  unfold keep_query_word. rewrite (toLowerCase_length_word t Hw), Hstop.
  destruct (Nat.leb_spec 2 (List.length t)); [reflexivity|lia].
Qed.

End QueryWords.

(** ** Queries that never reach the table *)

Section Searching.

Variable E : Env.

Lemma search_never_matched (q : str) (sh : Shard) (m : Z) :
  never_matched q ->
  fst (search E sh q m) = []
  /\ sql_trace (snd (search E sh q m)) = sql_trace sh
  /\ rows (snd (search E sh q m)) = rows sh.
Proof.
  intros H. unfold search.
  destruct (preprocessQuery q) as [|c pq] eqn:Hpq; [simpl; auto|].
  destruct H as [H|H]; [congruence|].
  rewrite Hpq in H. rewrite H. simpl. auto.
Qed.

Lemma serve_search_never_matched (now : Z) (sh sh' : Shard) (q : str)
  (m : option Z) (r : Reply) :
  never_matched q ->
  serve E now sh (CallSearchDocuments q m) = (r, sh') ->
  r = SearchReply [] /\ sql_trace sh' = sql_trace sh /\ rows sh' = rows sh.
Proof.
  intros H. unfold serve, searchDocuments_hot.
  destruct q as [|c q'].
  - intros [= <- <-]. auto.
  - set (mm := match m with Some m0 => m0 | None => 100%Z end).
    destruct (search_never_matched (c :: q') sh mm H) as (H1 & H2 & H3).
    destruct (search E sh (c :: q') mm) as [res sh1]. simpl in *.
    intros [= <- <-]. subst res. auto.
Qed.

Lemma put_shard_preserves {A} (f : Shard -> A) (w : World) (s : Stub)
  (sh' : Shard) (e : RpcEvent) :
  f sh' = f (shard_at w s) ->
  forall s', f (shard_at (put_shard w s sh' e) s') = f (shard_at w s').
Proof.
  intros H s'.
  destruct s as [n|i|n], s' as [n'|i'|n']; simpl in *; try reflexivity.
  - destruct (str_eqb n' n) eqn:He; [|reflexivity].
    apply str_eqb_eq in He. subst. exact H.
  - destruct (str_eqb i' i) eqn:He; [|reflexivity].
    apply str_eqb_eq in He. subst. exact H.
  - destruct (str_eqb n' n) eqn:He; [|reflexivity].
    apply str_eqb_eq in He. subst. exact H.
Qed.

Lemma rpc_search_never_matched (now : Z) (w w' : World) (s : Stub)
  (q : str) (m : option Z) (r : Reply) :
  never_matched q ->
  rpc E now w s (CallSearchDocuments q m) = (r, w') ->
  (r = Rejected \/ r = SearchReply [])
  /\ forall s', sql_trace (shard_at w' s') = sql_trace (shard_at w s').
Proof.
  intros H. unfold rpc.
  destruct (net_down w (List.length (rpc_log w))).
  - intros [= <- <-]. split; [auto|]. intros [?|?|?]; reflexivity.
  - destruct (serve E now (shard_at w s) (CallSearchDocuments q m))
      as [r0 sh'] eqn:Hs.
    destruct (serve_search_never_matched _ _ _ _ _ _ H Hs) as (-> & Ht & _).
    intros [= <- <-]. split; [auto|].
    apply put_shard_preserves. exact Ht.
Qed.

Lemma too_many_arguments_nil : too_many_arguments E 0 = false.
Proof. unfold too_many_arguments. apply N.ltb_ge, N.le_0_l. Qed.

Lemma push_all_nils {A} (allResults : list (list A)) :
  Forall (fun l => l = []) allResults ->
  forall coldResults, push_all E coldResults allResults = Some coldResults.
Proof.
  induction 1 as [|l rest -> _ IH]; intros acc; simpl; [reflexivity|].
  rewrite too_many_arguments_nil, app_nil_r. apply IH.
Qed.

Lemma search_cold_each_never_matched (now : Z) (q : str) (prefix : str)
  (per : Z) (indices : list nat) :
  never_matched q ->
  forall (sh : Shard) (w : World) res sh' w',
  search_cold_each E now sh w prefix q per indices = (res, sh', w') ->
  Forall (fun l => l = []) res
  /\ sql_trace sh' = sql_trace sh /\ rows sh' = rows sh
  /\ forall s', sql_trace (shard_at w' s') = sql_trace (shard_at w s').
Proof.
  intros H. induction indices as [|i rest IH]; intros sh w res sh' w'; simpl.
  - intros [= <- <- <-]. auto.
  - destruct (rpc E now w (ColdStub (coldStorageName prefix (Z.of_nat i)))
                (CallSearchDocuments q (Some per))) as [r w1] eqn:Hr.
    destruct (rpc_search_never_matched _ _ _ _ _ _ _ H Hr) as [Hrep Hw1].
    set (hs := match r with
               | SearchReply l => (l, sh)
               | _ => ([], logged (ErrorSearchingColdStorage
                         (coldStorageName prefix (Z.of_nat i))) sh)
               end).
    assert (Hhs : fst hs = [] /\ sql_trace (snd hs) = sql_trace sh
                  /\ rows (snd hs) = rows sh).
    { unfold hs. destruct Hrep as [-> | ->]; simpl; auto. }
    destruct hs as [here sh1]. simpl in Hhs. destruct Hhs as (-> & Ht & Hrw).
    destruct (search_cold_each E now sh1 w1 prefix q per rest)
      as [[others sh2] w2] eqn:Hrest.
    destruct (IH _ _ _ _ _ Hrest) as (Hnil & Ht2 & Hrw2 & Hw2).
    intros [= <- <- <-].
    split; [constructor; [reflexivity|exact Hnil]|].
    split; [congruence|]. split; [congruence|].
    intros s'. rewrite Hw2. apply Hw1.
Qed.

Lemma truncate_to_nil {A} (m : Z) : truncate_to m (@nil A) = [].
Proof.
  unfold truncate_to, splice_from. simpl.
  destruct (m <? 0)%Z; [apply firstn_nil|reflexivity].
Qed.

Lemma searchColdStorage_never_matched (now : Z) (q : str) (m : Z)
  (sh : Shard) (w : World) res sh' w' :
  never_matched q ->
  searchColdStorage E now sh w q m = (res, sh', w') ->
  res = Some [] /\ sql_trace sh' = sql_trace sh /\ rows sh' = rows sh
  /\ forall s', sql_trace (shard_at w' s') = sql_trace (shard_at w s').
Proof.
  intros H. unfold searchColdStorage.
  destruct ((num_or (currentColdStorageIndex (config sh)) 0 =? 0)%Z
            || (m <=? 0)%Z).
  - intros [= <- <- <-]. auto.
  - match goal with
    | |- context [search_cold_each E now sh w ?p q ?per ?ix] =>
        destruct (search_cold_each E now sh w p q per ix)
          as [[cold sh1] w1] eqn:Hc
    end.
    destruct (search_cold_each_never_matched _ _ _ _ _ H _ _ _ _ _ Hc)
      as (Hnil & Ht & Hrw & Hw).
    rewrite (push_all_nils _ Hnil).
    intros [= <- <- <-]. simpl. rewrite truncate_to_nil. auto.
Qed.

(** A query that never reaches the table finds nothing, on no shard is a
    statement run, and no table changes. *)
Lemma searchDocuments_never_matched (now : Z) (sh : Shard) (w : World)
  (params : SearchParams) res sh' w' :
  never_matched (query params) ->
  searchDocuments E now sh w params = (res, sh', w') ->
  res = [] /\ sql_trace sh' = sql_trace sh /\ rows sh' = rows sh
  /\ forall s', sql_trace (shard_at w' s') = sql_trace (shard_at w s').
Proof.
  intros H. unfold searchDocuments.
  destruct (query params) as [|c q'] eqn:Hq.
  - intros [= <- <- <-]. auto.
  - set (mm := match maxResults params with Some m => m | None => 100%Z end).
    destruct (search_never_matched (c :: q') sh mm H) as (H1 & H2 & H3).
    destruct (search E sh (c :: q') mm) as [results sh1]. simpl in *.
    subst results.
    destruct (truthy_bool (includeCold params)
              && negb (truthy_bool (isReadOnly (config sh1)))
              && truthy_num (currentColdStorageIndex (config sh1))).
    + match goal with
      | |- context [searchColdStorage E now sh1 w ?qq ?m] =>
          destruct (searchColdStorage E now sh1 w qq m)
            as [[cold sh2] w1] eqn:Hc
      end.
      destruct (searchColdStorage_never_matched _ _ _ _ _ _ _ _ H Hc)
        as (-> & Ht & Hrw & Hw).
      cbn [List.length]. rewrite too_many_arguments_nil.
      intros [= <- <- <-]. simpl. rewrite truncate_to_nil.
      split; [reflexivity|]. split; [congruence|]. split; [congruence|].
      exact Hw.
    + intros [= <- <- <-]. auto.
Qed.

Lemma ratio_above_too_common (pq : str) :
  (4 # 5 < commonTermsRatio (analyzeQuery pq))%Q ->
  isTooCommon (analyzeQuery pq) = true
  /\ reason (analyzeQuery pq) = Some TooManyCommonTerms.
Proof.
  unfold analyzeQuery.
  destruct pq as [|c pq']; [intros H; discriminate H|].
  destruct (words_of (toLowerCase (c :: pq'))) as [|w ws];
    [intros H; discriminate H|].
  cbn [commonTermsRatio isTooCommon reason].
  set (r := (Z.of_nat (List.length (filter is_common_word (w :: ws)))
             # Pos.of_nat (List.length (w :: ws)))%Q).
  intros H.
  assert (Hle : Qle_bool r (8 # 10) = false).
  { destruct (Qle_bool r (8 # 10)) eqn:Hb; [|reflexivity].
    apply Qle_bool_iff in Hb.
    pose proof (Qlt_le_trans _ _ _ H Hb) as Habs.
    unfold Qlt in Habs. simpl in Habs. lia. }
  rewrite Hle. auto.
Qed.

End Searching.

(** C7.  When more than four fifths of the words of the processed query
    are stop words or common terms, the analysis marks the query as too
    common, [search] returns no result, and so does [searchDocuments];
    the query of the scenario is such a query. *)
Theorem too_common_query_returns_nothing (E : Env) (now : Z) (sh : Shard)
  (w : World) (params : SearchParams) :
  ((4 # 5 <
    commonTermsRatio (analyzeQuery (preprocessQuery (query params))))%Q ->
   isTooCommon (analyzeQuery (preprocessQuery (query params))) = true
   /\ reason (analyzeQuery (preprocessQuery (query params)))
      = Some TooManyCommonTerms
   /\ (forall m, fst (search E sh (query params) m) = [])
   /\ fst (fst (searchDocuments E now sh w params)) = [])
  /\ forall ic,
       fst (fst (searchDocuments E now sh w
                   {| query := js "the and or cat meme"; includeCold := ic;
                      maxResults := Some 100%Z |})) = [].
Proof.
  split.
  - intros H. destruct (ratio_above_too_common _ H) as [Ht Hr].
    assert (Hn : never_matched (query params)) by (right; exact Ht).
    repeat split; try assumption.
    + intros m. apply (search_never_matched E _ sh m Hn).
    + destruct (searchDocuments E now sh w params) as [[res sh'] w'] eqn:Hs.
      destruct (searchDocuments_never_matched E _ _ _ _ _ _ _ Hn Hs)
        as [-> _]. reflexivity.
  - intros ic.
    match goal with
    | |- fst (fst (searchDocuments E now sh w ?p)) = [] =>
        destruct (searchDocuments E now sh w p) as [[res sh'] w'] eqn:Hs;
        assert (Hn : never_matched (query p))
          by (right; vm_compute; reflexivity);
        destruct (searchDocuments_never_matched E _ _ _ _ _ _ _ Hn Hs)
          as [-> _]
    end.
    reflexivity.
Qed.

Lemma too_common_query_returns_nothing_witness :
  (4 # 5 < commonTermsRatio
             (analyzeQuery (preprocessQuery (js "the and or cat meme"))))%Q
  /\ fst (fst (searchDocuments quiet_env 0 fresh_shard calm_world
                 {| query := js "the and or cat meme"; includeCold := None;
                    maxResults := Some 100%Z |})) = [].
Proof.
  assert (H : (4 # 5 < commonTermsRatio
                 (analyzeQuery (preprocessQuery (js "the and or cat meme"))))%Q)
    by (vm_compute; reflexivity).
  split; [exact H|].
  exact (proj2 (proj2 (proj2
    (proj1 (too_common_query_returns_nothing quiet_env 0 fresh_shard
              calm_world
              {| query := js "the and or cat meme"; includeCold := None;
                 maxResults := Some 100%Z |}) H)))).
Defined.

(** C10.  Every word that [preprocessQuery] retains has at least two
    units, and no length is too great: every word of the query that has
    two units or more and is not a stop word is retained, however long it
    is, and there are such words of every length above one.  So a query
    whose words all have one unit is processed to the empty string, and
    [searchDocuments] returns no result for it while no statement is run
    on the table of the shard or of any other shard. *)
Theorem query_words_have_two_units (E : Env) (now : Z) (sh : Shard)
  (w : World) (q : str) :
  Forall (fun t => 2 <= List.length t) (words_of (preprocessQuery q))
  /\ (forall t,
        In t (words_of q) -> 2 <= List.length t ->
        has STOP_WORDS (toLowerCase t) = false ->
        In t (words_of (preprocessQuery q)))
  /\ (forall t,
        In t (words_of (preprocessQuery q)) <->
        In t (words_of q) /\ 2 <= List.length t
        /\ has STOP_WORDS (toLowerCase t) = false)
  /\ (forall n, preprocessQuery (repeat 122%N (n + 2)) = repeat 122%N (n + 2))
  /\ (Forall (fun t => List.length t <= 1) (words_of q) ->
      preprocessQuery q = []
      /\ forall ic m res sh' w',
           searchDocuments E now sh w
             {| query := q; includeCold := ic; maxResults := m |}
           = (res, sh', w') ->
           res = [] /\ sql_trace sh' = sql_trace sh
           /\ forall s', sql_trace (shard_at w' s') = sql_trace (shard_at w s')).
Proof.
  split; [|split; [|split; [|split]]].
  - rewrite words_of_preprocessQuery. apply Forall_forall. intros t Ht.
    apply filter_In in Ht. destruct Ht as [Hin Hk].
    pose proof (words_of_tokens q) as Htok. rewrite Forall_forall in Htok.
    exact (keep_query_word_length t (Htok t Hin) Hk).
  - apply word_of_any_length_kept.
  - intros t. split.
    + rewrite words_of_preprocessQuery. intros Ht.
      apply filter_In in Ht. destruct Ht as [Hin Hk].
      pose proof (words_of_tokens q) as Htok. rewrite Forall_forall in Htok.
      split; [exact Hin|].
      split; [exact (keep_query_word_length t (Htok t Hin) Hk)|].
      unfold keep_query_word in Hk. apply andb_true_iff in Hk.
      destruct Hk as [_ Hk]. apply negb_true_iff in Hk. exact Hk.
    + intros (Hin & Hlen & Hstop).
      exact (word_of_any_length_kept q t Hin Hlen Hstop).
  - exact long_word_kept.
  - intros Hshort.
    assert (Hempty : preprocessQuery q = []).
    { rewrite preprocessQuery_eq.
      rewrite (short_words_filtered _ (words_of_tokens q) Hshort).
      reflexivity. }
    split; [exact Hempty|].
    intros ic m res sh' w' Hs.
    assert (Hn : never_matched q) by (left; exact Hempty).
    destruct (searchDocuments_never_matched E now sh w
                {| query := q; includeCold := ic; maxResults := m |}
                res sh' w' Hn Hs)
      as (H1 & H2 & _ & H4).
    auto.
Qed.

Lemma query_words_have_two_units_witness :
  Forall (fun t => List.length t <= 1) (words_of (js "x 7 q"))
  /\ preprocessQuery (js "x 7 q") = [].
Proof.
  assert (H : Forall (fun t => List.length t <= 1) (words_of (js "x 7 q"))).
  { vm_compute. repeat constructor. }
  split; [exact H|].
  exact (proj1 (proj2 (proj2 (proj2 (proj2
    (query_words_have_two_units quiet_env 0 fresh_shard calm_world
       (js "x 7 q"))))) H)).
Defined.

(** A word of sixty units passes the query filter, and the content
    filter, which keeps no word above fifty units, drops it. *)
Example sixty_unit_word :
  preprocessQuery (js "find " ++ repeat 97%N 60 ++ js " zebra")
  = js "find " ++ repeat 97%N 60 ++ js " zebra"
  /\ preprocessContent (js "find " ++ repeat 97%N 60 ++ js " zebra")
     = js "find zebra".
Proof. vm_compute. split; reflexivity. Qed.

Example single_unit_query_runs_nothing :
  searchDocuments quiet_env 0 fresh_shard calm_world
    {| query := js "x 7 q"; includeCold := Some true;
       maxResults := Some 10%Z |}
  = ([], fresh_shard, calm_world).
Proof. vm_compute. reflexivity. Qed.

(** ** The number of results of a search *)

Section ResultCount.

Variable E : Env.

Lemma sql_limit_length {A} (n : Z) (l : list A) :
  (0 <= n)%Z -> (Z.of_nat (List.length (sql_limit n l)) <= n)%Z.
Proof.
  intros Hn. unfold sql_limit.
  destruct (Z.ltb_spec n 0); [lia|].
  rewrite length_firstn. lia.
Qed.



Lemma truncate_to_length {A} (m : Z) (l : list A) :
  (0 <= m)%Z -> (Z.of_nat (List.length (truncate_to m l)) <= m)%Z.
Proof.
  intros Hm. unfold truncate_to, splice_from.
  destruct (Z.ltb_spec m (Z.of_nat (List.length l))); [|lia].
  destruct (Z.ltb_spec m 0); [lia|]. rewrite length_firstn. lia.
Qed.

Lemma effectiveMaxResults_bounds (c : Cost) (m : Z) :
  (0 <= m)%Z ->
  (0 <= effectiveMaxResults c m <= m)%Z.
Proof. destruct c; simpl; lia. Qed.

Lemma sql_match_length (sh : Shard) (q : str) (limit : Z) res sh' :
  (0 <= limit)%Z ->
  sql_match E sh q limit = (Some res, sh') ->
  (Z.of_nat (List.length res) <= limit)%Z.
Proof.
  intros Hl. unfold sql_match.
  destruct (sql_raises E (rows sh) (MatchDocuments q limit));
    [discriminate|].
  intros [= <- _]. apply sql_limit_length, Hl.
Qed.

Lemma search_length (sh : Shard) (q : str) (m : Z) :
  (0 <= m)%Z ->
  (Z.of_nat (List.length (fst (search E sh q m))) <= Z.max m 50)%Z
  /\ (sql_raises E (rows sh) (first_statement q m) = false ->
      (Z.of_nat (List.length (fst (search E sh q m))) <= m)%Z).
Proof.
  intros Hm. unfold search, first_statement.
  destruct (preprocessQuery q) as [|c pq]; [simpl; lia|].
  set (a := analyzeQuery (c :: pq)).
  destruct (isTooCommon a); [simpl; lia|].
  pose proof (effectiveMaxResults_bounds (estimatedCost a) m Hm) as Hb.
  set (limit := effectiveMaxResults (estimatedCost a) m) in *.
  destruct (sql_match E sh (ftsQuery_of (c :: pq)) limit) as [[res|] sh1]
    eqn:H1.
  - pose proof (sql_match_length _ _ _ _ _ (proj1 Hb) H1). simpl. lia.
  - assert (Hr : sql_raises E (rows sh)
                   (MatchDocuments (ftsQuery_of (c :: pq)) limit) = true).
    { unfold sql_match in H1.
      destruct (sql_raises E (rows sh)
                  (MatchDocuments (ftsQuery_of (c :: pq)) limit));
        [reflexivity|discriminate]. }
    match goal with
    | |- context [sql_match E ?s ?p 50] =>
        destruct (sql_match E s p 50) as [[res|] sh3] eqn:H2
    end.
    + assert (H50 : (0 <= 50)%Z) by lia.
      pose proof (sql_match_length _ _ _ _ _ H50 H2). simpl.
      split; [lia|]. rewrite Hr. discriminate.
    + simpl. split; [lia|]. rewrite Hr. discriminate.
Qed.

Lemma search_config (sh : Shard) (q : str) (m : Z) :
  config (snd (search E sh q m)) = config sh.
Proof.
  unfold search.
  destruct (preprocessQuery q); [reflexivity|].
  destruct (isTooCommon _); [reflexivity|].
  unfold sql_match.
  destruct (sql_raises E (rows sh) (MatchDocuments _ _)); [|reflexivity].
  cbn [logged rows].
  destruct (sql_raises E _ (MatchDocuments _ 50)); reflexivity.
Qed.

(** What [searchDocuments] returns is bounded by [maxResults] when the
    first statement of the local search does not raise, and when the
    results are merged with those of cold storage; it is bounded by the
    greater of [maxResults] and 50 in every case. *)
Lemma searchDocuments_length (now : Z) (sh : Shard) (w : World)
  (params : SearchParams) (m : Z) res sh' w' :
  m = match maxResults params with Some m0 => m0 | None => 100%Z end ->
  (0 <= m)%Z ->
  searchDocuments E now sh w params = (res, sh', w') ->
  (Z.of_nat (List.length res) <= Z.max m 50)%Z
  /\ (sql_raises E (rows sh) (first_statement (query params) m) = false
      \/ truthy_bool (includeCold params)
         && negb (truthy_bool (isReadOnly (config sh)))
         && truthy_num (currentColdStorageIndex (config sh)) = true ->
      (Z.of_nat (List.length res) <= m)%Z).
Proof.
  intros Hmm Hm. unfold searchDocuments. rewrite <- Hmm.
  destruct (query params) as [|c q'] eqn:Hq.
  - intros [= <- <- <-]. simpl. lia.
  - destruct (search_length sh (c :: q') m Hm) as [Hany Hfirst].
    pose proof (search_config sh (c :: q') m) as Hcfg.
    destruct (search E sh (c :: q') m) as [results sh1]. simpl in *.
    rewrite Hcfg.
    destruct (truthy_bool (includeCold params)
              && negb (truthy_bool (isReadOnly (config sh)))
              && truthy_num (currentColdStorageIndex (config sh))).
    + match goal with
      | |- context [searchColdStorage E now sh1 w ?qq ?mx] =>
          destruct (searchColdStorage E now sh1 w qq mx)
            as [[[cold|] sh2] w1]
      end.
      * destruct (too_many_arguments E (List.length cold)).
        { intros [= <- <- <-]. simpl. lia. }
        intros [= <- <- <-].
        pose proof (truncate_to_length m (sort_by rank (results ++ cold)) Hm).
        split; [lia|]. intros _. assumption.
      * intros [= <- <- <-]. simpl. lia.
    + intros [= <- <- <-]. split; [exact Hany|].
      intros [H|H]; [auto|discriminate].
Qed.

End ResultCount.

(** C6.  On a shard that holds sixty matching documents, with an engine
    that raises on the first statement of the search and answers the
    quoted phrase, [searchDocuments] with [maxResults = 10] returns the
    fifty rows of the fallback. *)
Theorem fallback_returns_more_than_maxResults :
  List.length
    (fst (fst (searchDocuments phrase_only_env 0 sixty_widgets calm_world
                 {| query := js "widget"; includeCold := Some false;
                    maxResults := Some 10%Z |}))) = 50
  /\ sql_trace
       (snd (fst (searchDocuments phrase_only_env 0 sixty_widgets calm_world
                    {| query := js "widget"; includeCold := Some false;
                       maxResults := Some 10%Z |})))
     = [MatchDocuments (dquote ++ js "widget" ++ dquote) 50;
        MatchDocuments (js "widget") 10].
Proof. vm_compute. split; reflexivity. Qed.

(** ** Index and Sync *)

Section Writes.

Variable E : Env.

Lemma logStorageMetrics_effect (sh : Shard) :
  rows (logStorageMetrics E sh) = rows sh
  /\ config (logStorageMetrics E sh) = config sh
  /\ cache_invalidations (logStorageMetrics E sh) = cache_invalidations sh
  /\ sql_trace (logStorageMetrics E sh) = CountDocuments :: sql_trace sh.
Proof.
  unfold logStorageMetrics, sql_count.
  destruct (sql_raises E (rows sh) CountDocuments); simpl; auto.
Qed.

Lemma invalidate_if_effect (b : bool) (sh : Shard) :
  rows (if b then invalidateCache sh else sh) = rows sh
  /\ config (if b then invalidateCache sh else sh) = config sh
  /\ sql_trace (if b then invalidateCache sh else sh) = sql_trace sh
  /\ cache_invalidations (if b then invalidateCache sh else sh)
     = (if b then S (cache_invalidations sh) else cache_invalidations sh).
Proof. destruct b; simpl; auto. Qed.

End Writes.

(** C8.  On every shard and for every batch, [syncDocuments] and
    [indexDocuments] return the same success flag, the same count and the
    same details, and leave the same table, the same configuration and
    the same number of cache invalidations behind, after the same
    writing statements. *)
Theorem sync_has_the_semantics_of_index (E : Env) (sh : Shard)
  (documents : list Document) :
  sync_success (fst (syncDocuments E sh documents))
  = success (fst (indexDocuments E sh documents))
  /\ synced (fst (syncDocuments E sh documents))
     = indexed (fst (indexDocuments E sh documents))
  /\ sync_details (fst (syncDocuments E sh documents))
     = details (fst (indexDocuments E sh documents))
  /\ rows (snd (syncDocuments E sh documents))
     = rows (snd (indexDocuments E sh documents))
  /\ config (snd (syncDocuments E sh documents))
     = config (snd (indexDocuments E sh documents))
  /\ cache_invalidations (snd (syncDocuments E sh documents))
     = cache_invalidations (snd (indexDocuments E sh documents))
  /\ filter is_write (sql_trace (snd (syncDocuments E sh documents)))
     = filter is_write (sql_trace (snd (indexDocuments E sh documents))).
Proof.
  unfold syncDocuments, indexDocuments.
  destruct (truthy_bool (isReadOnly (config sh))); [simpl; tauto|].
  destruct (valid (validateDocuments documents (idType_or_string (config sh))));
    simpl negb; cbv iota; [|simpl; tauto].
  destruct (data (validateDocuments documents (idType_or_string (config sh))))
    as [[|d ds]|]; [simpl; tauto| |simpl; tauto].
  destruct (indexDocumentsInternal E sh (d :: ds)) as [[|] sh1];
    [|simpl; tauto].
  destruct (logStorageMetrics_effect E sh1) as (Hr & Hc & Hi & Ht).
  destruct (invalidate_if_effect (SEARCH_CACHE E) sh1) as (Ar & Ac & At & Ai).
  destruct (invalidate_if_effect (SEARCH_CACHE E) (logStorageMetrics E sh1))
    as (Br & Bc & Bt & Bi).
  cbn [fst snd sync_success success synced indexed sync_details details].
  rewrite Ar, Ac, At, Ai, Br, Bc, Bt, Bi, Hr, Hc, Hi, Ht.
  simpl. tauto.
Qed.

Example index_and_sync_on_fresh_shard :
  rows (snd (indexDocuments quiet_env fresh_shard [tutorial_doc]))
  = [{| rowid := 1; row_id := Some (js "a");
        row_content := js "javascript programming tutorial" |}]
  /\ rows (snd (syncDocuments quiet_env fresh_shard [tutorial_doc]))
     = rows (snd (indexDocuments quiet_env fresh_shard [tutorial_doc]))
  /\ fst (indexDocuments quiet_env fresh_shard [tutorial_doc])
     = {| success := true; indexed := 1; error := None; details := None |}.
Proof. vm_compute. repeat split; reflexivity. Qed.

(** ** Read-only shards *)

Section ReadOnly.

Variable E : Env.

Lemma search_rows_only (sh1 sh2 : Shard) (q : str) (m : Z) :
  rows sh1 = rows sh2 -> fst (search E sh1 q m) = fst (search E sh2 q m).
Proof.
  intros H. unfold search.
  destruct (preprocessQuery q); [reflexivity|].
  destruct (isTooCommon _); [reflexivity|].
  unfold sql_match. cbn [logged traced rows]. rewrite H.
  match goal with
  | |- context [sql_raises E (rows sh2) ?st] =>
      destruct (sql_raises E (rows sh2) st); [|reflexivity]
  end.
  cbn [logged traced rows]. rewrite H.
  match goal with
  | |- context [sql_raises E (rows sh2) ?st] =>
      destruct (sql_raises E (rows sh2) st); reflexivity
  end.
Qed.

Lemma configure_config (now : Z) (sh : Shard) (req : ConfigureRequest) :
  config (configure E now sh req) = merge_config (config sh) req
  /\ stored_config (configure E now sh req)
     = Some (merge_config (config sh) req)
  /\ rows (configure E now sh req) = rows sh.
Proof.
  unfold configure. destruct (VITEST E); [simpl; auto|].
  cbn [alarm_time put_config set_config].
  destruct (alarm_time sh) as [t|]; [destruct (t =? 0)%Z|]; simpl; auto.
Qed.

End ReadOnly.

(** C3, as the code has it.  While [isReadOnly] is set, [indexDocuments]
    and [syncDocuments] fail with the read-only error and leave the shard
    as it was, no statement run; [searchDocuments] is the search of the
    shard's own table, which does not depend on the flag, and [getStats]
    reports count, size and the flag.  [configure] has no guard: it
    merges every request, so a request with [isReadOnly = false] makes
    the shard writable again. *)
Theorem read_only_rejects_writes_not_configure (E : Env) (now : Z)
  (sh : Shard) (documents : list Document) :
  truthy_bool (isReadOnly (config sh)) = true ->
  indexDocuments E sh documents
  = ({| success := false; indexed := 0; error := Some ReadOnlyColdStorage;
        details := None |}, sh)
  /\ syncDocuments E sh documents
     = ({| sync_success := false; synced := 0;
           sync_error := Some ReadOnlyColdStorage; sync_details := None |},
        sh)
  /\ (forall w params,
        searchDocuments E now sh w params
        = (fst (searchDocuments_hot E sh (query params) (maxResults params)),
           snd (searchDocuments_hot E sh (query params) (maxResults params)),
           w))
  /\ (forall sh2 q m,
        rows sh2 = rows sh ->
        fst (search E sh q m) = fst (search E sh2 q m))
  /\ (sql_raises E (rows sh) CountDocuments = false ->
      fst (getStats E sh)
      = {| count := Z.of_nat (List.length (rows sh));
           estimatedSize := databaseSize E (rows sh);
           stats_isReadOnly := isReadOnly (config sh) |})
  /\ (forall req,
        config (configure E now sh req) = merge_config (config sh) req)
  /\ (forall req,
        isReadOnly req = Some false ->
        truthy_bool (isReadOnly (config (configure E now sh req))) = false).
Proof.
  intros Hro. repeat split.
  - unfold indexDocuments. rewrite Hro. reflexivity.
  - unfold syncDocuments. rewrite Hro. reflexivity.
  - intros w params. unfold searchDocuments, searchDocuments_hot.
    destruct (query params) as [|c q']; [reflexivity|].
    pose proof (search_config E sh (c :: q')
                  (match maxResults params with
                   | Some m => m | None => 100%Z end)) as Hc.
    destruct (search E sh (c :: q') _) as [results sh1]. simpl in *.
    rewrite Hc, Hro. simpl. rewrite andb_false_r. reflexivity.
  - intros sh2 q m H. apply search_rows_only. symmetry. exact H.
  - intros Hc. unfold getStats, sql_count. rewrite Hc. reflexivity.
  - intros req. apply (configure_config E now sh req).
  - intros req Hreq.
    destruct (configure_config E now sh req) as [-> _].
    simpl. rewrite Hreq. reflexivity.
Qed.

Lemma read_only_rejects_writes_not_configure_witness :
  truthy_bool (isReadOnly (config sealed_shard)) = true
  /\ fst (indexDocuments quiet_env sealed_shard [tutorial_doc])
     = {| success := false; indexed := 0;
          error := Some ReadOnlyColdStorage; details := None |}.
Proof.
  assert (H : truthy_bool (isReadOnly (config sealed_shard)) = true)
    by (vm_compute; reflexivity).
  split; [exact H|].
  rewrite (proj1 (read_only_rejects_writes_not_configure quiet_env 0
                    sealed_shard [tutorial_doc] H)).
  reflexivity.
Defined.

(** C3 fails as stated: [Configure({isReadOnly: false})] on a read-only
    shard is accepted, and the next [indexDocuments] writes. *)
Lemma configure_reopens_read_only_shard :
  truthy_bool (isReadOnly (config sealed_shard)) = true
  /\ success (fst (indexDocuments quiet_env sealed_shard [tutorial_doc]))
     = false
  /\ isReadOnly (config (configure quiet_env 10 sealed_shard reopenRequest))
     = Some false
  /\ fst (indexDocuments quiet_env
            (configure quiet_env 10 sealed_shard reopenRequest)
            [tutorial_doc])
     = {| success := true; indexed := 1; error := None; details := None |}
  /\ List.length
       (rows (snd (indexDocuments quiet_env
                     (configure quiet_env 10 sealed_shard reopenRequest)
                     [tutorial_doc]))) = 1.
Proof. vm_compute. repeat split; reflexivity. Qed.

(** ** The scenarios of indexing and searching *)

Example basic_index_and_search :
  map hit_id
    (fst (fst (searchDocuments quiet_env 0
                 (snd (indexDocuments quiet_env fresh_shard [tutorial_doc]))
                 calm_world
                 {| query := js "javascript"; includeCold := None;
                    maxResults := Some 10%Z |})))
  = [Some (js "a")].
Proof. vm_compute. reflexivity. Qed.

Example upsert_replaces_by_id :
  map (fun r => (row_id r, row_content r))
    (rows (snd (indexDocuments quiet_env
                  (snd (indexDocuments quiet_env fresh_shard
                          [{| id := JStr (js "u");
                              content := JStr (js "alpha") |}]))
                  [{| id := JStr (js "u"); content := JStr (js "beta") |}])))
  = [(Some (js "u"), js "beta")].
Proof. vm_compute. reflexivity. Qed.

(** A caller that does not ask for cold storage gets the local search,
    which is what one shard is served when it calls another. *)
Lemma searchDocuments_without_cold (E : Env) (now : Z) (sh : Shard)
  (w : World) (params : SearchParams) :
  truthy_bool (includeCold params) = false ->
  searchDocuments E now sh w params
  = (fst (searchDocuments_hot E sh (query params) (maxResults params)),
     snd (searchDocuments_hot E sh (query params) (maxResults params)), w).
Proof.
  intros H. unfold searchDocuments, searchDocuments_hot. rewrite H.
  destruct (query params) as [|c q']; [reflexivity|].
  destruct (search E sh (c :: q') _) as [results sh1]. reflexivity.
Qed.

(** ** Replication *)

Section Replication.

Variable E : Env.

Lemma only_logged_refl (sh : Shard) : only_logged sh sh.
Proof. exists []. destruct sh; reflexivity. Qed.

Lemma only_logged_logged (e : LogEntry) (sh : Shard) :
  only_logged sh (logged e sh).
Proof. exists [e]. reflexivity. Qed.

Lemma only_logged_trans (a b c : Shard) :
  only_logged a b -> only_logged b c -> only_logged a c.
Proof.
  intros [n1 ->] [n2 ->]. exists (n2 ++ n1). unfold relog. simpl.
  rewrite app_assoc. reflexivity.
Qed.

Lemma rpc_log_step (now : Z) (w w' : World) (s : Stub) (c : Call)
  (r : Reply) :
  rpc E now w s c = (r, w') ->
  rpc_log w' = {| callee := s; call := c; reply := r |} :: rpc_log w.
Proof.
  unfold rpc. destruct (net_down w (List.length (rpc_log w))).
  - intros [= <- <-]. reflexivity.
  - destruct (serve E now (shard_at w s) c) as [r0 sh'].
    intros [= <- <-]. destruct s; reflexivity.
Qed.

Lemma syncToReplica_spec (now : Z) (sh sh' : Shard) (w w' : World)
  (r : ReplicaInfo) (docs : list Document) (ok : bool) :
  syncToReplica E now sh w r docs = (ok, sh', w') ->
  exists new,
    rpc_log w' = new ++ rpc_log w
    /\ ok = negb (existsb failed_sync new)
    /\ only_logged sh sh'
    /\ (ok = false -> In (FailedToSyncToReplica r) (error_log sh')).
Proof.
  unfold syncToReplica. destruct (getReplicaStub w r) as [stub|e].
  - destruct (rpc E now w stub (CallSyncDocuments docs)) as [rep w1] eqn:Hr.
    apply rpc_log_step in Hr.
    assert (Hfailed :
      forall rep0, rep = rep0 ->
        failed_sync {| callee := stub; call := CallSyncDocuments docs;
                       reply := rep0 |} = true ->
        (false, logged (FailedToSyncToReplica r) sh, w1) = (ok, sh', w') ->
        exists new,
          rpc_log w' = new ++ rpc_log w
          /\ ok = negb (existsb failed_sync new)
          /\ only_logged sh sh'
          /\ (ok = false -> In (FailedToSyncToReplica r) (error_log sh'))).
    { intros rep0 -> Hf [= <- <- <-].
      exists [{| callee := stub; call := CallSyncDocuments docs;
                 reply := rep0 |}].
      rewrite Hr. cbn [existsb app]. rewrite Hf. simpl.
      repeat split; [apply only_logged_logged|]. intros _. left. reflexivity. }
    destruct rep as [|ri|rs|l|s|];
      try (apply (Hfailed _ eq_refl); reflexivity).
    destruct (sync_success rs) eqn:Hs.
    + intros [= <- <- <-].
      exists [{| callee := stub; call := CallSyncDocuments docs;
                 reply := SyncReply rs |}].
      rewrite Hr. unfold failed_sync. simpl. rewrite Hs. simpl.
      repeat split; [apply only_logged_refl|discriminate].
    + apply (Hfailed _ eq_refl). unfold failed_sync. simpl. rewrite Hs.
      reflexivity.
  - intros [= <- <- <-]. exists []. simpl. repeat split.
    + apply only_logged_logged.
    + discriminate.
Qed.

Lemma only_logged_log_incl (a b : Shard) (e : LogEntry) :
  only_logged a b -> In e (error_log a) -> In e (error_log b).
Proof. intros [n ->] H. simpl. apply in_or_app. auto. Qed.

Lemma sync_all_spec (now : Z) (docs : list Document) (rs : list ReplicaInfo) :
  forall (sh sh' : Shard) (w w' : World) (ok : bool),
  sync_all E now sh w rs docs = (ok, sh', w') ->
  exists new,
    rpc_log w' = new ++ rpc_log w
    /\ ok = negb (existsb failed_sync new)
    /\ only_logged sh sh'
    /\ (ok = false ->
        exists r, In r rs /\ In (FailedToSyncToReplica r) (error_log sh')).
Proof.
  induction rs as [|r rs' IH]; intros sh sh' w w' ok; simpl.
  - intros [= <- <- <-]. exists []. simpl. repeat split.
    + apply only_logged_refl.
    + discriminate.
  - destruct (syncToReplica E now sh w r docs) as [[ok1 sh1] w1] eqn:H1.
    destruct (sync_all E now sh1 w1 rs' docs) as [[ok2 sh2] w2] eqn:H2.
    intros [= <- <- <-].
    destruct (syncToReplica_spec _ _ _ _ _ _ _ _ H1)
      as (n1 & L1 & O1 & F1 & E1).
    destruct (IH _ _ _ _ _ H2) as (n2 & L2 & O2 & F2 & E2).
    exists (n2 ++ n1). repeat split.
    + rewrite L2, L1, app_assoc. reflexivity.
    + rewrite existsb_app, negb_orb, O1, O2. apply andb_comm.
    + exact (only_logged_trans _ _ _ F1 F2).
    + intros Hf. apply andb_false_iff in Hf. destruct Hf as [Hf|Hf].
      * exists r. split; [left; reflexivity|].
        exact (only_logged_log_incl _ _ _ F2 (E1 Hf)).
      * destruct (E2 Hf) as (r' & Hin & Hlog). exists r'. auto.
Qed.

Lemma in_insert_by {A} (key : A -> Z) (x y : A) (l : list A) :
  In y (insert_by key x l) <-> y = x \/ In y l.
Proof.
  induction l as [|z l IH]; simpl; [intuition congruence|].
  destruct (key z <? key x)%Z; simpl; rewrite ?IH; intuition congruence.
Qed.

Lemma in_sort_by {A} (key : A -> Z) (y : A) (l : list A) :
  In y (sort_by key l) <-> In y l.
Proof.
  induction l as [|x l IH]; simpl; [tauto|].
  unfold sort_by in *. simpl. rewrite in_insert_by, IH.
  intuition congruence.
Qed.

Lemma fold_left_max_ge (l : list Z) (x : Z) :
  (x <= fold_left Z.max l x)%Z
  /\ forall y, In y l -> (y <= fold_left Z.max l x)%Z.
Proof.
  revert x. induction l as [|z l IH]; intros x; simpl; [split; [lia|tauto]|].
  destruct (IH (Z.max x z)) as [H1 H2]. split; [lia|].
  intros y [<-|Hy]; [lia|auto].
Qed.

Lemma max_of_ge (l : list Z) (m y : Z) :
  max_of E l = Some m -> In y l -> (y <= m)%Z.
Proof.
  unfold max_of. destruct (too_many_arguments E _); [discriminate|].
  intros [= <-]. destruct l as [|x l]; [intros []|].
  destruct (fold_left_max_ge l x) as [H1 H2].
  intros [<-|Hy]; auto.
Qed.

Lemma max_of_In (l : list Z) (m : Z) :
  max_of E l = Some m -> l <> [] -> In m l.
Proof.
  unfold max_of. destruct (too_many_arguments E _); [discriminate|].
  intros [= <-]. destruct l as [|x l]; [congruence|]. intros _.
  revert x. induction l as [|z l IH]; intros x; simpl; [auto|].
  destruct (IH (Z.max x z)) as [H|H]; [|auto].
  rewrite <- H. destruct (Z.max_spec x z) as [[_ ->]|[_ ->]]; auto.
Qed.

Lemma max_of_raises (l : list Z) :
  max_of E l = None <-> too_many_arguments E (List.length l) = true.
Proof.
  unfold max_of. destruct (too_many_arguments E _); split; congruence.
Qed.

Lemma newDocs_past_cursor (sh : Shard) (r : Row) :
  In r (newDocs_of sh) -> (num_or (lastSyncRowId sh) 0 < rowid r)%Z.
Proof.
  unfold newDocs_of. rewrite in_sort_by, filter_In, Z.ltb_lt. tauto.
Qed.

Lemma syncToReplicas_frame (now : Z) (sh sh' : Shard) (w w' : World)
  (out : Outcome) :
  syncToReplicas E now sh w = (out, sh', w') ->
  config sh' = config sh /\ rows sh' = rows sh
  /\ alarm_time sh' = alarm_time sh
  /\ (out <> Returned -> lastSyncRowId sh' = lastSyncRowId sh).
Proof.
  unfold syncToReplicas, sql_select_since.
  destruct (sql_raises E (rows sh) _).
  - intros [= <- <- <-]. simpl. auto.
  - match goal with
    | |- context [sort_by rowid ?l] => destruct (sort_by rowid l) as [|d ds]
    end.
    + intros [= <- <- <-]. simpl. auto.
    + match goal with
      | |- context [sync_all E now ?s w ?rs ?docs] =>
          destruct (sync_all E now s w rs docs) as [[ok sh2] w1] eqn:Hs
      end.
      destruct (sync_all_spec _ _ _ _ _ _ _ _ Hs) as (_ & _ & _ & [n ->] & _).
      destruct ok; [destruct (max_of E _)|]; intros [= <- <- <-]; simpl; auto.
      repeat split; congruence.
Qed.

End Replication.

(** The replication step on any shard.  When a [syncDocuments] call of
    the step is lost or answered with a failure, the failure is logged
    and raised again: the step raises, [lastSyncRowId] stays as it was,
    and the alarm that ran the step raises without setting the next
    alarm.  The step also raises, with the cursor as it was, when the
    rows past the cursor are more than the engine spreads into
    [Math.max].  It returns only when no call failed, and then, if there
    were rows past the cursor, the cursor is the greatest of their
    rowids, which is above the old cursor. *)
Theorem replica_failure_fails_the_step (E : Env) (fuel : nat) (now : Z)
  (sh sh' : Shard) (w w' : World) (out : Outcome) :
  syncToReplicas E now sh w = (out, sh', w') ->
  exists new,
    rpc_log w' = new ++ rpc_log w
    /\ (existsb failed_sync new = true ->
        out = Threw
        /\ lastSyncRowId sh' = lastSyncRowId sh
        /\ (exists r, In (FailedToSyncToReplica r) (error_log sh'))
        /\ (truthy_bool (isReadOnly (config sh)) = false ->
            (exists r rs, replicas (config sh) = Some (r :: rs)) ->
            alarm E fuel now sh w = (Threw, sh', w')
            /\ alarm_time sh' = alarm_time sh))
    /\ (too_many_arguments E (List.length (newDocs_of sh)) = true ->
        out = Threw /\ lastSyncRowId sh' = lastSyncRowId sh)
    /\ (out = Returned ->
        existsb failed_sync new = false
        /\ (newDocs_of sh = [] -> lastSyncRowId sh' = lastSyncRowId sh)
        /\ (newDocs_of sh <> [] ->
            exists maxRowId,
              lastSyncRowId sh' = Some maxRowId
              /\ In maxRowId (map rowid (newDocs_of sh))
              /\ Forall (fun r => (rowid r <= maxRowId)%Z) (newDocs_of sh)
              /\ (num_or (lastSyncRowId sh) 0 < maxRowId)%Z)).
Proof.
  intros Hrun.
  pose proof (syncToReplicas_frame E _ _ _ _ _ _ Hrun) as (Fc & Fr & Fa & Fl).
  assert (Halarm : out = Threw ->
            truthy_bool (isReadOnly (config sh)) = false ->
            (exists r rs, replicas (config sh) = Some (r :: rs)) ->
            alarm E fuel now sh w = (Threw, sh', w')
            /\ alarm_time sh' = alarm_time sh).
  { intros -> Hro (r & rs & Hrs). split; [|exact Fa].
    unfold alarm, replication_step. rewrite Hro, Hrs, Hrun. reflexivity. }
  revert Hrun. unfold syncToReplicas, sql_select_since.
  fold (newDocs_of sh).
  destruct (sql_raises E (rows sh) _).
  - intros [= <- <- <-]. exists []. simpl.
    repeat split; try discriminate.
  - destruct (newDocs_of sh) as [|d ds] eqn:Hnew.
    + intros [= <- <- <-]. exists []. simpl.
      rewrite (too_many_arguments_nil E).
      repeat split; try discriminate; try congruence.
    + match goal with
      | |- context [sync_all E now ?s w ?rs ?docs] =>
          destruct (sync_all E now s w rs docs) as [[ok sh2] w1] eqn:Hs
      end.
      destruct (sync_all_spec _ _ _ _ _ _ _ _ _ Hs)
        as (new & Hlog & Hok & [n Hsh2] & Hfail).
      destruct ok.
      * destruct (max_of E (map rowid (d :: ds))) as [m|] eqn:Hmax;
          intros [= <- <- <-]; exists new; (split; [exact Hlog|]).
        -- split; [intros Hf; rewrite Hf in Hok; discriminate|].
           split.
           { intros Hmany. rewrite <- (length_map rowid) in Hmany.
             apply (proj2 (max_of_raises E _)) in Hmany. congruence. }
           intros _. split; [destruct (existsb failed_sync new);
                             [discriminate|reflexivity]|].
           split; [discriminate|]. intros _. exists m.
           split; [reflexivity|].
           split; [apply (max_of_In E _ _ Hmax); discriminate|].
           assert (Hall : Forall (fun r => (rowid r <= m)%Z) (d :: ds)).
           { apply Forall_forall. intros r Hr.
             apply (max_of_ge E _ _ _ Hmax), in_map, Hr. }
           split; [exact Hall|].
           assert (Hd : In d (newDocs_of sh))
             by (rewrite Hnew; left; reflexivity).
           apply newDocs_past_cursor in Hd.
           inversion Hall; subst. lia.
        -- split; [intros Hf; rewrite Hf in Hok; discriminate|].
           split; [intros _; split; [reflexivity|apply Fl; discriminate]|].
           discriminate.
      * intros [= <- <- <-]; exists new; (split; [exact Hlog|]).
        split.
        { intros _. split; [reflexivity|].
          split; [apply Fl; discriminate|].
          split; [|apply Halarm; reflexivity].
          destruct (Hfail eq_refl) as (r & _ & Hr). exists r. exact Hr. }
        split; [intros _; split; [reflexivity|apply Fl; discriminate]|].
        discriminate.
Qed.

Lemma triple_eta {A B C} (x : A * B * C) :
  x = (fst (fst x), snd (fst x), snd x).
Proof. destruct x as [[a b] c]. reflexivity. Qed.

Lemma replica_failure_fails_the_step_witness :
  fst (fst (syncToReplicas quiet_env 60000 replicated_primary
              sealed_replica_world)) = Threw
  /\ exists new,
       rpc_log (snd (syncToReplicas quiet_env 60000 replicated_primary
                       sealed_replica_world))
       = new ++ rpc_log sealed_replica_world
       /\ existsb failed_sync new = true.
Proof.
  destruct (replica_failure_fails_the_step quiet_env 10 60000
              replicated_primary _ sealed_replica_world _ _
              (triple_eta (syncToReplicas quiet_env 60000 replicated_primary
                             sealed_replica_world)))
    as (new & Hlog & _ & _).
  split; [vm_compute; reflexivity|].
  exists new. split; [exact Hlog|].
  apply (f_equal (existsb failed_sync)) in Hlog.
  rewrite app_nil_r in Hlog. rewrite <- Hlog. vm_compute. reflexivity.
Defined.

(** C1.  The code does not absorb the failure of a replica.  A primary
    with the one replica [weur] holds one row past its cursor.  When the
    replica answers [syncDocuments] with a failure, and likewise when the
    call to it is lost, the failure is logged, and then the alarm raises:
    [lastSyncRowId] is still not set, where the claim has it advanced to
    the rowid 1, and the time of the alarm is the one it had, so that no
    next alarm is set. *)
Theorem failed_replica_fails_the_tick :
  replicas (config replicated_primary) = Some [weur]
  /\ map rowid (newDocs_of replicated_primary) = [1%Z]
  /\ lastSyncRowId replicated_primary = None
  /\ (existsb failed_sync
        (rpc_log (snd (alarm quiet_env 10 60000 replicated_primary
                         sealed_replica_world))) = true
      /\ fst (fst (alarm quiet_env 10 60000 replicated_primary
                     sealed_replica_world)) = Threw
      /\ error_log (snd (fst (alarm quiet_env 10 60000 replicated_primary
                                sealed_replica_world)))
         = [FailedToSyncToReplica weur]
      /\ lastSyncRowId (snd (fst (alarm quiet_env 10 60000 replicated_primary
                                    sealed_replica_world))) = None
      /\ alarm_time (snd (fst (alarm quiet_env 10 60000 replicated_primary
                                 sealed_replica_world)))
         = alarm_time replicated_primary)
  /\ (map reply
        (rpc_log (snd (alarm quiet_env 10 60000 replicated_primary
                         dark_world))) = [Rejected]
      /\ fst (fst (alarm quiet_env 10 60000 replicated_primary dark_world))
         = Threw
      /\ error_log (snd (fst (alarm quiet_env 10 60000 replicated_primary
                                dark_world)))
         = [FailedToSyncToReplica weur]
      /\ lastSyncRowId (snd (fst (alarm quiet_env 10 60000 replicated_primary
                                    dark_world))) = None
      /\ alarm_time (snd (fst (alarm quiet_env 10 60000 replicated_primary
                                 dark_world)))
         = alarm_time replicated_primary).
Proof. vm_compute. repeat split; reflexivity. Qed.

(** With every replica reachable the same firing returns, advances the
    cursor to the rowid of the row and sets the next alarm. *)
Example reachable_replica_advances_the_cursor :
  fst (fst (alarm quiet_env 10 60000 replicated_primary calm_world))
  = Returned
  /\ lastSyncRowId (snd (fst (alarm quiet_env 10 60000 replicated_primary
                                calm_world))) = Some 1%Z
  /\ alarm_time (snd (fst (alarm quiet_env 10 60000 replicated_primary
                             calm_world))) = Some 90000%Z.
Proof. vm_compute. repeat split; reflexivity. Qed.

(** A descriptor without a name resolves to no stub: it is logged and
    skipped, the step returns and the cursor advances. *)
Example unresolved_replica_is_skipped :
  syncToReplicas quiet_env 60000
    (set_config
       (merge_config (config replicated_primary)
          {| alarmIntervalMs := None; purgeThresholdDocs := None;
             purgeTargetDocs := None; coldStoragePrefix := None;
             coldStorageThresholdDocs := None;
             replicas := Some [{| type := region; name := None;
                                  replica_id := None |}];
             isReadOnly := None; currentColdStorageIndex := None;
             idType := None |})
       replicated_primary)
    calm_world
  = (Returned,
     put_lastSyncRowId 1
       (logged (InvalidReplicaConfiguration
                  {| type := region; name := None; replica_id := None |})
          (traced (SelectSince 0)
             (set_config
                (merge_config (config replicated_primary)
                   {| alarmIntervalMs := None; purgeThresholdDocs := None;
                      purgeTargetDocs := None; coldStoragePrefix := None;
                      coldStorageThresholdDocs := None;
                      replicas := Some [{| type := region; name := None;
                                           replica_id := None |}];
                      isReadOnly := None; currentColdStorageIndex := None;
                      idType := None |})
                replicated_primary))),
     calm_world).
Proof. vm_compute. reflexivity. Qed.

(** ** The alarm and the number of rows to purge *)

Section Alarm.

Variable E : Env.

Lemma purgeOldData_frame (fuel : nat) (now : Z) (sh sh' : Shard)
  (w w' : World) (out : Outcome) :
  purgeOldData E fuel now sh w = (out, sh', w') ->
  alarm_time sh' = alarm_time sh
  /\ alarmIntervalMs (config sh') = alarmIntervalMs (config sh)
  /\ lastSyncRowId sh' = lastSyncRowId sh
  /\ (out <> Returned -> rows sh' = rows sh).
Proof.
  unfold purgeOldData, sql_count.
  destruct (sql_raises E (rows sh) CountDocuments).
  { intros [= <- <- <-]. simpl. auto. }
  cbn [config rows traced].
  destruct (negb (thresholdReached _ _ _)).
  { intros [= <- <- <-]. simpl. auto. }
  unfold sql_select_oldest. cbn [config rows traced].
  destruct (sql_raises E (rows sh) (SelectOldest _)).
  { intros [= <- <- <-]. simpl. auto. }
  destruct (sql_limit _ (sort_by rowid (rows sh))) as [|d ds].
  { intros [= <- <- <-]. simpl. auto. }
  match goal with
  | |- context [purge_loop E fuel now w ?p ?t ?i ?l] =>
      destruct (purge_loop E fuel now w p t i l) as [[o idx] w1]
  end.
  destruct o.
  - match goal with
    | |- context [(idx =? ?i0)%Z] => destruct (idx =? i0)%Z
    end;
      (destruct (rev (d :: ds)) as [|lastDoc rest];
       [intros [= <- <- <-]; simpl; repeat split; congruence|]);
      unfold sql_delete_upto, sql_write;
      cbn [config rows traced set_config put_coldStorageIndex];
      destruct (sql_raises E (rows sh) (DeleteUpTo _));
      intros [= <- <- <-]; simpl; repeat split; congruence.
  - intros [= <- <- <-]. simpl. auto.
  - intros [= <- <- <-]. simpl. auto.
Qed.

Lemma replication_step_frame (now : Z) (sh sh' : Shard) (w w' : World)
  (out : Outcome) :
  replication_step E now sh w = (out, sh', w') ->
  config sh' = config sh /\ alarm_time sh' = alarm_time sh.
Proof.
  unfold replication_step.
  destruct (replicas (config sh)) as [[|r rs]|];
    try (intros [= <- <- <-]; auto).
  intros H. destruct (syncToReplicas_frame E _ _ _ _ _ _ H) as (? & _ & ? & _).
  auto.
Qed.

Lemma lifecycle_step_frame (fuel : nat) (now : Z) (sh sh' : Shard)
  (w w' : World) (out : Outcome) :
  lifecycle_step E fuel now sh w = (out, sh', w') ->
  alarm_time sh' = alarm_time sh
  /\ alarmIntervalMs (config sh') = alarmIntervalMs (config sh).
Proof.
  unfold lifecycle_step.
  destruct (truthy_num (purgeThresholdDocs (config sh)));
    [|intros [= <- <- <-]; auto].
  intros H. destruct (purgeOldData_frame _ _ _ _ _ _ _ H) as (? & ? & _).
  auto.
Qed.

End Alarm.

(** The alarm on any shard that is not read-only.  It sets the next
    alarm, at [now + (alarmIntervalMs || 60000)], when both steps return.
    What a step raises is not caught: when the replication step raises,
    or the lifecycle step after it, the alarm raises with the state that
    step left, and the alarm time is the one it had before. *)
Theorem alarm_rearms_when_both_steps_return (E : Env) (fuel : nat)
  (now : Z) (sh sh' : Shard) (w w' : World) (out : Outcome) :
  alarm E fuel now sh w = (out, sh', w') ->
  truthy_bool (isReadOnly (config sh)) = false ->
  (out = Returned ->
   alarm_time sh' = Some (now + num_or (alarmIntervalMs (config sh)) 60000)%Z)
  /\ (out <> Returned -> alarm_time sh' = alarm_time sh)
  /\ (forall sh1 w1,
        replication_step E now sh w = (Threw, sh1, w1) ->
        (out, sh', w') = (Threw, sh1, w1))
  /\ (forall sh1 w1 sh2 w2,
        replication_step E now sh w = (Returned, sh1, w1) ->
        lifecycle_step E fuel now sh1 w1 = (Threw, sh2, w2) ->
        (out, sh', w') = (Threw, sh2, w2))
  /\ (forall sh1 w1 sh2 w2,
        replication_step E now sh w = (Returned, sh1, w1) ->
        lifecycle_step E fuel now sh1 w1 = (Returned, sh2, w2) ->
        out = Returned).
Proof.
  intros Hrun Hro. unfold alarm in Hrun. rewrite Hro in Hrun.
  destruct (replication_step E now sh w) as [[o1 sh1] w1] eqn:H1.
  destruct (replication_step_frame E _ _ _ _ _ _ H1) as [C1 A1].
  destruct o1.
  - destruct (lifecycle_step E fuel now sh1 w1) as [[o2 sh2] w2] eqn:H2.
    destruct (lifecycle_step_frame E _ _ _ _ _ _ _ H2) as [A2 I2].
    destruct o2; injection Hrun as <- <- <-; cbn [alarm_time setAlarm];
      repeat split; intros; try congruence.
  - injection Hrun as <- <- <-. repeat split; intros; congruence.
  - injection Hrun as <- <- <-. repeat split; intros; congruence.
Qed.

Lemma alarm_rearms_when_both_steps_return_witness :
  truthy_bool (isReadOnly (config rolling_primary)) = false
  /\ fst (fst (alarm quiet_env 100 70000 rolling_primary calm_world))
     = Returned
  /\ alarm_time (snd (fst (alarm quiet_env 100 70000 rolling_primary
                             calm_world)))
     = Some (70000 + num_or (alarmIntervalMs (config rolling_primary)) 60000)%Z.
Proof.
  assert (Hro : truthy_bool (isReadOnly (config rolling_primary)) = false)
    by (vm_compute; reflexivity).
  assert (Hout : fst (fst (alarm quiet_env 100 70000 rolling_primary
                             calm_world)) = Returned)
    by (vm_compute; reflexivity).
  split; [exact Hro|]. split; [exact Hout|].
  exact (proj1 (alarm_rearms_when_both_steps_return quiet_env 100 70000
                  rolling_primary _ calm_world _ _
                  (triple_eta (alarm quiet_env 100 70000 rolling_primary
                                 calm_world)) Hro) Hout).
Defined.

(** C2.  The alarm does not swallow what its steps raise, and a firing
    that fails sets no next alarm.  The primary of the rolling cold
    storage scenario is not read-only and has reached its purge
    threshold.  When the calls to the cold shard are lost, the purge step
    logs the failure and raises it again; when the engine raises on the
    count of the documents, nothing is logged at all.  The same holds for
    the replication step of a primary with a replica, when the engine
    raises on the rows past the cursor.  Each time the alarm raises and
    the time of the alarm is the one that was set before the firing, not
    [now + 60000]. *)
Theorem failed_purge_leaves_alarm_unarmed :
  (truthy_bool (isReadOnly (config rolling_primary)) = false
   /\ purgeThresholdDocs (config rolling_primary) = Some 20%Z
   /\ List.length (rows rolling_primary) = 25
   /\ alarmIntervalMs (config rolling_primary) = None
   /\ alarm_time rolling_primary = Some 5000%Z)
  /\ (fst (fst (alarm quiet_env 100 70000 rolling_primary dark_world)) = Threw
      /\ alarm_time (snd (fst (alarm quiet_env 100 70000 rolling_primary
                                 dark_world))) = Some 5000%Z
      /\ error_log (snd (fst (alarm quiet_env 100 70000 rolling_primary
                                dark_world)))
         = [FailedToMoveDocumentsToColdStorage]
      /\ rows (snd (fst (alarm quiet_env 100 70000 rolling_primary
                           dark_world))) = rows rolling_primary)
  /\ (fst (fst (alarm read_fault_env 100 70000 rolling_primary calm_world))
      = Threw
      /\ alarm_time (snd (fst (alarm read_fault_env 100 70000 rolling_primary
                                 calm_world))) = Some 5000%Z
      /\ error_log (snd (fst (alarm read_fault_env 100 70000 rolling_primary
                                calm_world))) = [])
  /\ (truthy_bool (isReadOnly (config replicated_primary)) = false
      /\ fst (fst (alarm read_fault_env 10 60000 replicated_primary
                     calm_world)) = Threw
      /\ alarm_time (snd (fst (alarm read_fault_env 10 60000
                                 replicated_primary calm_world)))
         = alarm_time replicated_primary
      /\ error_log (snd (fst (alarm read_fault_env 10 60000
                                replicated_primary calm_world))) = []).
Proof. vm_compute. repeat split; reflexivity. Qed.

(** ** Ordering by rowid *)

Section Ordering.

Context {A : Type} (key : A -> Z).

Lemma insert_by_sorted (x : A) (l : list A) :
  StronglySorted (key_le key) l -> StronglySorted (key_le key) (insert_by key x l).
Proof.
  induction 1 as [|y l Hl IH Hy]; simpl.
  - constructor; constructor.
  - destruct (Z.ltb_spec (key y) (key x)).
    + constructor; [exact IH|].
      apply Forall_forall. intros z Hz. apply in_insert_by in Hz.
      destruct Hz as [->|Hz]; [unfold key_le; lia|].
      rewrite Forall_forall in Hy. apply Hy, Hz.
    + constructor; [constructor; assumption|].
      constructor; [unfold key_le; lia|].
      eapply Forall_impl; [|exact Hy]. unfold key_le. intros; lia.
Qed.

Lemma sort_by_sorted (l : list A) : StronglySorted (key_le key) (sort_by key l).
Proof.
  induction l as [|x l IH]; [constructor|].
  unfold sort_by in *. simpl. apply insert_by_sorted, IH.
Qed.

Lemma insert_by_perm (x : A) (l : list A) :
  Permutation (insert_by key x l) (x :: l).
Proof.
  induction l as [|y l IH]; simpl; [reflexivity|].
  destruct (key y <? key x)%Z; [|reflexivity].
  rewrite IH. apply perm_swap.
Qed.

Lemma sort_by_perm (l : list A) : Permutation (sort_by key l) l.
Proof.
  induction l as [|x l IH]; [reflexivity|].
  unfold sort_by in *. simpl. rewrite insert_by_perm, IH. reflexivity.
Qed.

Lemma sorted_app (p q : list A) :
  StronglySorted (key_le key) (p ++ q) ->
  forall a b, In a p -> In b q -> (key a <= key b)%Z.
Proof.
  induction p as [|x p IH]; simpl; [tauto|].
  intros H a b [<-|Ha] Hb.
  - inversion H as [|? ? _ Hall]; subst. rewrite Forall_forall in Hall.
    apply Hall, in_or_app. auto.
  - inversion H; subst. eauto.
Qed.

Lemma NoDup_app_disjoint {B} (p q : list B) (b : B) :
  NoDup (p ++ q) -> In b p -> In b q -> False.
Proof.
  induction p as [|x p IH]; simpl; [tauto|].
  intros H [<-|Hb] Hq.
  - inversion H as [|? ? Hn _]; subst. apply Hn, in_or_app. auto.
  - inversion H; subst. auto.
Qed.

(** In a list ordered by a key without repetitions, whatever has a key
    not above the key of an element of a prefix is in that prefix. *)
Lemma sorted_prefix_closed (n : nat) (l : list A) (x y : A) :
  StronglySorted (key_le key) l -> NoDup (map key l) ->
  In x (firstn n l) -> In y l -> (key y <= key x)%Z -> In y (firstn n l).
Proof.
  intros Hs Hnd Hx Hy Hle.
  rewrite <- (firstn_skipn n l) in Hs, Hnd, Hy.
  apply in_app_or in Hy. destruct Hy as [Hy|Hy]; [exact Hy|].
  pose proof (sorted_app _ _ Hs x y Hx Hy) as Hge.
  assert (Heq : key x = key y) by lia.
  rewrite map_app in Hnd. exfalso.
  apply (NoDup_app_disjoint _ _ (key x) Hnd).
  - apply in_map, Hx.
  - rewrite Heq. apply in_map, Hy.
Qed.

End Ordering.

Example sort_by_is_stable :
  sort_by fst [(1, 10); (0, 20); (1, 30); (0, 40)]%Z
  = [(0, 20); (0, 40); (1, 10); (1, 30)]%Z.
Proof. reflexivity. Qed.

(** ** How many rows a purge selects *)

Section PurgeCount.

Variable E : Env.












End PurgeCount.




(** A target above the count: with a threshold of 20, a target of 40 and
    25 rows the limit is -15, every row is selected and handed to the
    cold shards, and the purge leaves the table empty. *)
Example target_above_count_purges_every_row :
  numToPurge_of (config overtargeted_primary)
    (Z.of_nat (List.length (rows overtargeted_primary))) = (-15)%Z
  /\ List.length (docsToPurge_of (config overtargeted_primary)
                    (rows overtargeted_primary)) = 25
  /\ fst (fst (purgeOldData quiet_env 100 70000 overtargeted_primary
                 calm_world)) = Returned
  /\ List.length
       (indexed_documents
          (rpc_log (snd (purgeOldData quiet_env 100 70000
                           overtargeted_primary calm_world)))) = 25
  /\ rows (snd (fst (purgeOldData quiet_env 100 70000 overtargeted_primary
                       calm_world))) = [].
Proof. vm_compute. repeat split; reflexivity. Qed.

(** ** Migration to cold storage *)

Section Migration.

Variable E : Env.

Lemma validate_each_no_errors (t : IdType) (docs : list Document) :
  forall i vs es,
  validate_each i docs t = (vs, es) -> es = [] ->
  vs = docs /\ Forall (fun d => id_errors d t = []) docs.
Proof.
  induction docs as [|d docs IH]; intros i vs es; simpl.
  - intros [= <- <-] _. auto.
  - destruct (validate_each (S i) docs t) as [vs' es'] eqn:Hrest.
    destruct (id_errors d t ++ content_errors d) as [|e errs] eqn:Herrs.
    + simpl. intros [= <- <-] ->.
      destruct (IH _ _ _ Hrest eq_refl) as [-> Hall].
      apply app_eq_nil in Herrs. destruct Herrs as [Hid _].
      split; [reflexivity|]. constructor; assumption.
    + simpl. intros [= <- <-] Hnil. discriminate Hnil.
Qed.

Lemma validateDocuments_valid (t : IdType) (docs : list Document) :
  valid (validateDocuments docs t) = true ->
  data (validateDocuments docs t) = Some docs
  /\ Forall (fun d => id_errors d t = []) docs.
Proof.
  unfold validateDocuments. destruct docs as [|d docs]; [simpl; auto|].
  destruct (validate_each 0 (d :: docs) t) as [vs es] eqn:Hv.
  cbn [valid data]. intros Hlen.
  assert (Hes : es = []) by (destruct es; [reflexivity|discriminate]).
  destruct (validate_each_no_errors _ _ _ _ _ Hv Hes) as [-> Hall].
  auto.
Qed.

Lemma id_errors_string (d : Document) :
  id_errors d string_id = [] -> exists s, id d = JStr s.
Proof.
  unfold id_errors. destruct (id d); try discriminate. eauto.
Qed.

Lemma id_errors_integer_row (r : Row) :
  id_errors (to_document r) integer_id <> [].
Proof.
  unfold id_errors, to_document. simpl.
  destruct (row_id r); discriminate.
Qed.

Lemma insert_all_held (vals : list (str * str)) :
  forall rs,
  (forall s, held rs s -> held (insert_all rs vals) s)
  /\ (forall s c, In (s, c) vals -> held (insert_all rs vals) s).
Proof.
  unfold insert_all.
  induction vals as [|[s0 c0] vals IH]; intros rs; simpl.
  - split; [auto|intros ? ? []].
  - destruct (IH (insert_row rs (Some s0) c0)) as [Hmono Hnew].
    split.
    + intros s (r & Hr & Hs). apply Hmono. exists r. split; [|exact Hs].
      unfold insert_row. apply in_or_app. auto.
    + intros s c [[= <- <-]|Hin]; [|eauto].
      apply Hmono. unfold insert_row.
      eexists. split; [apply in_or_app; right; left; reflexivity|].
      reflexivity.
Qed.

Lemma bind_ids_spec (vals : list (JsVal * str)) :
  forall l, bind_ids vals = Some l ->
  forall v c, In (v, c) vals -> exists s, v = JStr s /\ In (s, c) l.
Proof.
  induction vals as [|[v0 c0] vals IH]; intros l; simpl.
  - intros _ v c [].
  - destruct v0; try discriminate.
    destruct (bind_ids vals) as [l'|]; [|discriminate].
    intros [= <-] v c [[= <- <-]|Hin].
    + eexists. split; [reflexivity|left; reflexivity].
    + destruct (IH _ eq_refl _ _ Hin) as (s' & -> & Hs').
      eexists. split; [reflexivity|right; exact Hs'].
Qed.

Lemma sql_write_ok (sh sh' : Shard) (st : Stmt) (after : option (list Row)) :
  sql_write E sh st after = (true, sh') ->
  exists l, after = Some l /\ rows sh' = l /\ config sh' = config sh.
Proof.
  unfold sql_write. destruct (sql_raises E (rows sh) st); [discriminate|].
  destruct after as [l|]; [|discriminate].
  intros [= <-]. exists l. auto.
Qed.

Lemma indexDocumentChunk_string (sh sh' : Shard) (chunk : list Document) :
  indexDocumentChunk E sh chunk string_id = (true, sh') ->
  config sh' = config sh
  /\ (forall d, In d chunk -> exists s, id d = JStr s /\ holds_id sh' s)
  /\ (forall s, holds_id sh s -> holds_id sh' s).
Proof.
  unfold indexDocumentChunk.
  destruct (sql_delete_ids E sh (map id chunk)) as [[|] sh1] eqn:Hdel;
    [|discriminate].
  unfold sql_delete_ids in Hdel.
  destruct (sql_write_ok _ _ _ _ Hdel) as (l1 & [= <-] & Hrows1 & Hcfg1).
  intros Hins. unfold sql_insert in Hins.
  destruct (sql_write_ok _ _ _ _ Hins) as (l2 & Hbind & Hrows2 & Hcfg2).
  destruct (bind_ids (map (fun doc => (id doc, bound_content doc)) chunk))
    as [l|] eqn:Hb; [|discriminate].
  simpl in Hbind. injection Hbind as <-.
  destruct (insert_all_held l (rows sh1)) as [Hmono Hnew].
  split; [congruence|]. split.
  - intros d Hd.
    destruct (bind_ids_spec _ _ Hb (id d) (bound_content d)) as (s & Hs & Hin).
    { apply (in_map (fun doc => (id doc, bound_content doc))), Hd. }
    exists s. split; [exact Hs|]. unfold holds_id. rewrite Hrows2.
    exact (Hnew _ _ Hin).
  - intros s (r & Hr & Hrs). unfold holds_id. rewrite Hrows2.
    destruct (id_matches (map id chunk) r) eqn:Hm.
    + unfold id_matches in Hm. rewrite Hrs in Hm.
      apply existsb_exists in Hm. destruct Hm as (v & Hv & Heq).
      destruct v; try discriminate. apply str_eqb_eq in Heq. subst s0.
      apply in_map_iff in Hv. destruct Hv as (d & Hid & Hd).
      destruct (bind_ids_spec _ _ Hb (id d) (bound_content d))
        as (s' & Hs' & Hin).
      { apply (in_map (fun doc => (id doc, bound_content doc))), Hd. }
      rewrite Hid in Hs'. injection Hs' as <-. exact (Hnew _ _ Hin).
    + apply Hmono. exists r. split; [|exact Hrs].
      rewrite Hrows1. apply filter_In. rewrite Hm. auto.
Qed.

Lemma index_chunks_string (cs : list (list Document)) :
  forall sh sh',
  index_chunks E sh cs string_id = (true, sh') ->
  config sh' = config sh
  /\ (forall chunk d, In chunk cs -> In d chunk ->
      exists s, id d = JStr s /\ holds_id sh' s)
  /\ (forall s, holds_id sh s -> holds_id sh' s).
Proof.
  induction cs as [|chunk cs IH]; intros sh sh'; cbn [index_chunks].
  - intros [= <-]. split; [reflexivity|]. split; [intros ? ? []|auto].
  - destruct (indexDocumentChunk E sh chunk string_id) as [[|] sh1] eqn:Hc;
      [|discriminate].
    intros Hrest.
    destruct (indexDocumentChunk_string _ _ _ Hc) as (C1 & N1 & M1).
    destruct (IH _ _ Hrest) as (C2 & N2 & M2).
    split; [congruence|]. split; [|auto].
    intros ch d [<-|Hch] Hd; [|eauto].
    destruct (N1 d Hd) as (s & Hs & Hh). eauto.
Qed.

Lemma chunks_upto_concat {A} (n : nat) :
  0 < n ->
  forall fuel (l : list A),
  List.length l <= fuel -> List.concat (chunks_upto fuel n l) = l.
Proof.
  intros Hn. induction fuel as [|fuel IH]; intros l Hl.
  - destruct l; [reflexivity|simpl in Hl; lia].
  - destruct l as [|x l']; [reflexivity|].
    cbn [chunks_upto List.concat].
    rewrite IH; [apply firstn_skipn|].
    rewrite length_skipn. cbn [List.length] in *. lia.
Qed.

Lemma in_chunks {A} (l : list A) (d : A) :
  In d l -> exists chunk, In chunk (chunks CHUNK_SIZE l) /\ In d chunk.
Proof.
  intros Hd. unfold chunks.
  assert (Hn : 0 < CHUNK_SIZE) by (unfold CHUNK_SIZE; lia).
  rewrite <- (chunks_upto_concat CHUNK_SIZE Hn (List.length l) l (le_n _))
    in Hd.
  apply in_concat in Hd. exact Hd.
Qed.

Lemma rows_after_metrics (sh : Shard) :
  rows (if SEARCH_CACHE E then invalidateCache (logStorageMetrics E sh)
        else logStorageMetrics E sh) = rows sh.
Proof.
  destruct (logStorageMetrics_effect E sh) as [Hr _].
  destruct (SEARCH_CACHE E); simpl; exact Hr.
Qed.

(** A successful [indexDocuments] of rows taken from a table leaves each
    of them in the callee, under its [id], and loses no [id] that the
    callee held. *)
Lemma indexDocuments_of_rows (sh sh' : Shard) (rs : list Row)
  (res : IndexResult) :
  indexDocuments E sh (map to_document rs) = (res, sh') ->
  success res = true ->
  (forall r, In r rs -> exists s, row_id r = Some s /\ holds_id sh' s)
  /\ (forall s, holds_id sh s -> holds_id sh' s).
Proof.
  unfold indexDocuments.
  destruct (truthy_bool (isReadOnly (config sh)));
    [intros [= <- _]; discriminate|].
  destruct (valid (validateDocuments (map to_document rs)
                     (idType_or_string (config sh)))) eqn:Hv;
    [|intros [= <- _]; discriminate].
  destruct (validateDocuments_valid _ _ Hv) as [Hdata Hids].
  rewrite Hdata. cbn [negb].
  destruct rs as [|r0 rs']; [intros [= <- <-] _; split; [intros ? []|auto]|].
  cbn [map].
  destruct (idType_or_string (config sh)) eqn:Ht.
  - destruct (indexDocumentsInternal E sh
                (to_document r0 :: map to_document rs')) as [[|] sh1] eqn:Hi;
      [|intros [= <- _]; discriminate].
    intros [= <- <-] _.
    unfold holds_id. rewrite rows_after_metrics. fold (holds_id sh1).
    unfold indexDocumentsInternal in Hi. rewrite Ht in Hi.
    destruct (index_chunks E sh _ string_id) as [[|] sh2] eqn:Hc;
      [|discriminate].
    injection Hi as <-.
    destruct (index_chunks_string _ _ _ Hc) as (_ & Hnew & Hmono).
    split; [|exact Hmono].
    intros r Hr.
    destruct (in_chunks (map to_document (r0 :: rs')) (to_document r)
                (in_map _ _ _ Hr)) as (chunk & Hch & Hd).
    destruct (Hnew _ _ Hch Hd) as (s & Hs & Hh).
    exists s. split; [|exact Hh].
    unfold to_document in Hs. simpl in Hs.
    destruct (row_id r); [congruence|discriminate].
  - exfalso. inversion Hids as [|? ? H0 _]; subst.
    exact (id_errors_integer_row r0 H0).
Qed.

Lemma rpc_cold_frame (now : Z) (w w' : World) (n : str) (c : Call)
  (rep : Reply) :
  rpc E now w (ColdStub n) c = (rep, w') ->
  rows (snd (serve E now (COLD_STORAGE_DO w n) c))
    = rows (COLD_STORAGE_DO w n) ->
  forall m s,
  holds_id (COLD_STORAGE_DO w m) s -> holds_id (COLD_STORAGE_DO w' m) s.
Proof.
  unfold rpc. destruct (net_down w (List.length (rpc_log w))).
  - intros [= _ <-] _ m s H. exact H.
  - cbn [shard_at].
    destruct (serve E now (COLD_STORAGE_DO w n) c) as [r0 sh'].
    intros [= _ <-] Hrows m s. unfold holds_id. simpl in *.
    destruct (str_eqb m n) eqn:He; [|auto].
    apply str_eqb_eq in He. subst m. rewrite Hrows. auto.
Qed.

Lemma getStats_rows (sh : Shard) : rows (snd (getStats E sh)) = rows sh.
Proof.
  unfold getStats, sql_count.
  destruct (sql_raises E (rows sh) CountDocuments); reflexivity.
Qed.

Lemma rpc_cold_index (now : Z) (w w' : World) (n : str) (rs : list Row)
  (res : IndexResult) :
  rpc E now w (ColdStub n) (CallIndexDocuments (map to_document rs))
  = (IndexReply res, w') ->
  success res = true ->
  (forall r, In r rs ->
   exists s, row_id r = Some s /\ holds_id (COLD_STORAGE_DO w' n) s)
  /\ (forall m s,
      holds_id (COLD_STORAGE_DO w m) s -> holds_id (COLD_STORAGE_DO w' m) s).
Proof.
  unfold rpc. destruct (net_down w (List.length (rpc_log w)));
    [discriminate|].
  cbn [shard_at serve].
  destruct (indexDocuments E (COLD_STORAGE_DO w n) (map to_document rs))
    as [res0 sh'] eqn:Hi.
  intros [= <- <-] Hs.
  destruct (indexDocuments_of_rows _ _ _ _ Hi Hs) as [Hnew Hmono].
  cbn [put_shard COLD_STORAGE_DO].
  rewrite (proj2 (str_eqb_eq n n) eq_refl).
  split; [exact Hnew|].
  intros m s. destruct (str_eqb m n) eqn:He; [|auto].
  apply str_eqb_eq in He. subst m. apply Hmono.
Qed.

Lemma configure_rows (now : Z) (sh : Shard) (c : ConfigureRequest) :
  rows (configureRPC E now sh c) = rows sh.
Proof. apply (configure_config E now sh c). Qed.

Lemma serve_getStats_rows (now : Z) (sh : Shard) :
  rows (snd (serve E now sh CallGetStats)) = rows sh.
Proof.
  unfold serve. pose proof (getStats_rows sh) as H.
  destruct (getStats E sh). exact H.
Qed.

Lemma serve_configure_rows (now : Z) (sh : Shard) (c : ConfigureRequest) :
  rows (snd (serve E now sh (CallConfigureRPC c))) = rows sh.
Proof. apply configure_rows. Qed.

Lemma cold_mono_trans (w1 w2 w3 : World) :
  (forall m s, holds_id (COLD_STORAGE_DO w1 m) s ->
               holds_id (COLD_STORAGE_DO w2 m) s) ->
  (forall m s, holds_id (COLD_STORAGE_DO w2 m) s ->
               holds_id (COLD_STORAGE_DO w3 m) s) ->
  forall m s, holds_id (COLD_STORAGE_DO w1 m) s ->
              holds_id (COLD_STORAGE_DO w3 m) s.
Proof. auto. Qed.

(** The loop of the purge: it returns only when no call of
    [indexDocuments] failed, and then every row it was given is in a cold
    shard, and no cold shard has lost an [id]. *)
Lemma purge_loop_spec (now : Z) (prefix : str) (threshold : Z)
  (fuel : nat) :
  forall (w : World) (index : Z) (remaining : list Row) out index' w',
  purge_loop E fuel now w prefix threshold index remaining
  = (out, index', w') ->
  exists new,
    rpc_log w' = new ++ rpc_log w
    /\ (existsb failed_index new = true -> out = Threw)
    /\ (out = Returned ->
        (forall r, In r remaining -> in_cold_storage w' r)
        /\ (forall m s, holds_id (COLD_STORAGE_DO w m) s ->
                        holds_id (COLD_STORAGE_DO w' m) s)).
Proof.
  induction fuel as [|fuel IH]; intros w index remaining out index' w'.
  - destruct remaining as [|r0 rest]; simpl; intros [= <- <- <-];
      exists []; simpl; repeat split; try discriminate; auto.
    intros ? [].
  - destruct remaining as [|r0 rest].
    { simpl. intros [= <- <- <-]. exists []. simpl.
      repeat split; try discriminate; auto. intros ? []. }
    set (remaining := r0 :: rest). cbn [purge_loop].
    set (stub := ColdStub (coldStorageName prefix index)).
    destruct (rpc E now w stub CallGetStats) as [rep1 w1] eqn:H1.
    pose proof (rpc_log_step E _ _ _ _ _ _ H1) as L1.
    assert (M1 : forall m s, holds_id (COLD_STORAGE_DO w m) s ->
                             holds_id (COLD_STORAGE_DO w1 m) s).
    { apply (rpc_cold_frame _ _ _ _ _ _ H1). apply serve_getStats_rows. }
    set (stats_count := match rep1 with StatsReply s => count s | _ => 0%Z end).
    set (availableSpace := (threshold - stats_count)%Z).
    destruct (availableSpace <=? 0)%Z.
    { intros Hrec. destruct (IH _ _ _ _ _ _ Hrec) as (new & L & F & R).
      exists (new ++ [{| callee := stub; call := CallGetStats;
                         reply := rep1 |}]).
      split; [rewrite L, L1, <- app_assoc; reflexivity|].
      split.
      - rewrite existsb_app. simpl. rewrite !orb_false_r. exact F.
      - intros Hout. destruct (R Hout) as [Rin Rmono].
        split; [exact Rin|]. intros m s Hh. apply Rmono, M1, Hh. }
    set (documentsToMove := firstn (Z.to_nat availableSpace) remaining).
    set (rest' := skipn (Z.to_nat availableSpace) remaining).
    destruct (rpc E now w1 stub
                (CallIndexDocuments (map to_document documentsToMove)))
      as [rep2 w2] eqn:H2.
    pose proof (rpc_log_step E _ _ _ _ _ _ H2) as L2.
    assert (Hthrew : forall i0 w0 x,
      rpc_log w0 = x ++ rpc_log w2 ->
      (Threw, i0, w0) = (out, index', w') ->
      exists new,
        rpc_log w' = new ++ rpc_log w
        /\ (existsb failed_index new = true -> out = Threw)
        /\ (out = Returned ->
            (forall r, In r remaining -> in_cold_storage w' r)
            /\ (forall m s, holds_id (COLD_STORAGE_DO w m) s ->
                            holds_id (COLD_STORAGE_DO w' m) s))).
    { intros i0 w0 x Lx [= <- <- <-].
      exists (x ++ [{| callee := stub;
                       call := CallIndexDocuments
                                 (map to_document documentsToMove);
                       reply := rep2 |};
                    {| callee := stub; call := CallGetStats;
                       reply := rep1 |}]).
      split; [rewrite Lx, L2, L1, <- app_assoc; reflexivity|].
      split; [reflexivity|discriminate]. }
    destruct rep2 as [|result| | | |];
      try (apply (Hthrew _ _ []); reflexivity).
    destruct (success result) eqn:Hsucc;
      [|apply (Hthrew _ _ []); reflexivity].
    destruct (rpc_cold_index _ _ _ _ _ _ H2 Hsucc) as [N2 M2].
    set (marked :=
      if (stats_count =? 0)%Z then
        match rpc E now w2 stub (CallConfigureRPC readOnlyRequest) with
        | (ConfigureReply, w3) => (true, w3)
        | (_, w3) => (false, w3)
        end
      else (true, w2)).
    assert (Hmarked :
      exists x, rpc_log (snd marked) = x ++ rpc_log w2
        /\ existsb failed_index x = false
        /\ forall m s, holds_id (COLD_STORAGE_DO w2 m) s ->
                       holds_id (COLD_STORAGE_DO (snd marked) m) s).
    { unfold marked. destruct (stats_count =? 0)%Z.
      - destruct (rpc E now w2 stub (CallConfigureRPC readOnlyRequest))
          as [rep3 w3] eqn:H3.
        pose proof (rpc_log_step E _ _ _ _ _ _ H3) as L3.
        assert (M3 : forall m s, holds_id (COLD_STORAGE_DO w2 m) s ->
                                 holds_id (COLD_STORAGE_DO w3 m) s).
        { apply (rpc_cold_frame _ _ _ _ _ _ H3). apply serve_configure_rows. }
        exists [{| callee := stub; call := CallConfigureRPC readOnlyRequest;
                   reply := rep3 |}].
        destruct rep3; simpl; auto.
      - exists []. simpl. auto. }
    destruct marked as [ok w3]. cbn [snd] in Hmarked.
    destruct Hmarked as (x & L3 & F3 & M3).
    destruct ok; [|apply (Hthrew _ _ x L3)].
    intros Hrec. destruct (IH _ _ _ _ _ _ Hrec) as (new & L & F & R).
    exists (new ++ x ++ [{| callee := stub;
                            call := CallIndexDocuments
                                      (map to_document documentsToMove);
                            reply := IndexReply result |};
                         {| callee := stub; call := CallGetStats;
                            reply := rep1 |}]).
    split; [rewrite L, L3, L2, L1, <- !app_assoc; reflexivity|].
    split.
    + rewrite !existsb_app, F3. cbn [existsb]. unfold failed_index at 2 3.
      cbn [call reply]. rewrite Hsucc. simpl. rewrite !orb_false_r. exact F.
    + intros Hout. destruct (R Hout) as [Rin Rmono]. split.
      * intros r Hr. unfold remaining in Hr.
        rewrite <- (firstn_skipn (Z.to_nat availableSpace) (r0 :: rest)) in Hr.
        apply in_app_or in Hr. destruct Hr as [Hr|Hr]; [|apply Rin, Hr].
        destruct (N2 r Hr) as (s & Hs & Hh).
        exists s, (coldStorageName prefix index). split; [exact Hs|].
        apply Rmono, M3, Hh.
      * intros m s Hh. apply Rmono, M3, M2, M1, Hh.
Qed.

End Migration.

(** C4.  In a purge step the primary changes its table only by the one
    statement [DELETE ... WHERE rowid <= lastDoc.rowid], run after the
    loop over the cold shards has returned, which it does only when no
    call of [indexDocuments] was lost or answered with a failure; when
    such a call fails the step raises and the table is as it was.  Every
    row that the step removes from a table with distinct rowids is then
    held, under its [id], by a cold shard. *)
Theorem purge_deletes_only_after_cold_writes (E : Env) (fuel : nat)
  (now : Z) (sh sh' : Shard) (w w' : World) (out : Outcome) :
  NoDup (map rowid (rows sh)) ->
  purgeOldData E fuel now sh w = (out, sh', w') ->
  exists new,
    rpc_log w' = new ++ rpc_log w
    /\ (existsb failed_index new = true -> out = Threw /\ rows sh' = rows sh)
    /\ (out <> Returned -> rows sh' = rows sh)
    /\ (rows sh' = rows sh
        \/ exists lastDoc limit,
             existsb failed_index new = false
             /\ sql_trace sh'
                = DeleteUpTo (rowid lastDoc) :: SelectOldest limit
                  :: CountDocuments :: sql_trace sh
             /\ rows sh'
                = filter (fun r => negb (rowid r <=? rowid lastDoc)%Z)
                    (rows sh))
    /\ (forall r, In r (rows sh) -> ~ In r (rows sh') -> in_cold_storage w' r).
Proof.
  intros Hnd. unfold purgeOldData, sql_count.
  assert (Hsame : forall o s w0,
    rows s = rows sh -> rpc_log w0 = rpc_log w ->
    (o, s, w0) = (out, sh', w') ->
    exists new,
      rpc_log w' = new ++ rpc_log w
      /\ (existsb failed_index new = true -> out = Threw /\ rows sh' = rows sh)
      /\ (out <> Returned -> rows sh' = rows sh)
      /\ (rows sh' = rows sh
          \/ exists lastDoc limit,
               existsb failed_index new = false
               /\ sql_trace sh'
                  = DeleteUpTo (rowid lastDoc) :: SelectOldest limit
                    :: CountDocuments :: sql_trace sh
               /\ rows sh'
                  = filter (fun r => negb (rowid r <=? rowid lastDoc)%Z)
                      (rows sh))
      /\ (forall r, In r (rows sh) -> ~ In r (rows sh') ->
          in_cold_storage w' r)).
  { intros o s w0 Hr Hl [= <- <- <-]. exists []. simpl.
    split; [exact Hl|]. split; [discriminate|]. split; [auto|].
    split; [auto|]. intros r Hin Hout. rewrite Hr in Hout. contradiction. }
  destruct (sql_raises E (rows sh) CountDocuments);
    [apply Hsame; reflexivity|].
  cbn [config rows traced].
  destruct (negb (thresholdReached _ _ _)); [apply Hsame; reflexivity|].
  unfold sql_select_oldest. cbn [config rows traced].
  destruct (sql_raises E (rows sh) (SelectOldest _));
    [apply Hsame; reflexivity|].
  set (limit := numToPurge_of (config sh) (Z.of_nat (List.length (rows sh)))).
  destruct (sql_limit limit (sort_by rowid (rows sh))) as [|d ds] eqn:Hdocs;
    [apply Hsame; reflexivity|].
  match goal with
  | |- context [purge_loop E fuel now w ?p ?t ?i ?l] =>
      destruct (purge_loop E fuel now w p t i l) as [[o idx] w1] eqn:Hloop
  end.
  destruct (purge_loop_spec E _ _ _ _ _ _ _ _ _ _ Hloop) as (new & L & F & R).
  assert (Hkept : forall s,
    rows s = rows sh -> o <> Returned \/ existsb failed_index new = false ->
    forall o', (o' = Threw \/ o' = o) ->
    (o', s, w1) = (out, sh', w') ->
    exists new0,
      rpc_log w' = new0 ++ rpc_log w
      /\ (existsb failed_index new0 = true ->
          out = Threw /\ rows sh' = rows sh)
      /\ (out <> Returned -> rows sh' = rows sh)
      /\ (rows sh' = rows sh
          \/ exists lastDoc limit0,
               existsb failed_index new0 = false
               /\ sql_trace sh'
                  = DeleteUpTo (rowid lastDoc) :: SelectOldest limit0
                    :: CountDocuments :: sql_trace sh
               /\ rows sh'
                  = filter (fun r => negb (rowid r <=? rowid lastDoc)%Z)
                      (rows sh))
      /\ (forall r, In r (rows sh) -> ~ In r (rows sh') ->
          in_cold_storage w' r)).
  { intros s Hr Hno o' Ho' [= <- <- <-]. exists new.
    split; [exact L|]. split.
    - intros Hf. split; [|exact Hr].
      destruct Ho' as [->| ->]; [reflexivity|]. exact (F Hf).
    - split; [auto|]. split; [auto|].
      intros r Hin Hout. rewrite Hr in Hout. contradiction. }
  assert (Hnofail : o = Returned -> existsb failed_index new = false).
  { intros ->. destruct (existsb failed_index new); [|reflexivity].
    discriminate (F eq_refl). }
  destruct o.
  - specialize (Hnofail eq_refl). destruct (R eq_refl) as [Rin _].
    assert (Hcont : forall sh3,
      rows sh3 = rows sh ->
      sql_trace sh3 = SelectOldest limit :: CountDocuments :: sql_trace sh ->
      match rev (d :: ds) with
      | [] => (Returned, sh3, w1)
      | lastDoc :: _ =>
          match sql_delete_upto E sh3 (rowid lastDoc) with
          | (true, sh4) => (Returned, sh4, w1)
          | (false, sh4) =>
              (Threw, logged FailedToMoveDocumentsToColdStorage sh4, w1)
          end
      end = (out, sh', w') ->
      exists new0,
        rpc_log w' = new0 ++ rpc_log w
        /\ (existsb failed_index new0 = true ->
            out = Threw /\ rows sh' = rows sh)
        /\ (out <> Returned -> rows sh' = rows sh)
        /\ (rows sh' = rows sh
            \/ exists lastDoc limit0,
                 existsb failed_index new0 = false
                 /\ sql_trace sh'
                    = DeleteUpTo (rowid lastDoc) :: SelectOldest limit0
                      :: CountDocuments :: sql_trace sh
                 /\ rows sh'
                    = filter (fun r => negb (rowid r <=? rowid lastDoc)%Z)
                        (rows sh))
        /\ (forall r, In r (rows sh) -> ~ In r (rows sh') ->
            in_cold_storage w' r)).
    { intros sh3 Hr3 Ht3.
      destruct (rev (d :: ds)) as [|lastDoc rest] eqn:Hrev.
      { apply (Hkept sh3 Hr3 (or_intror Hnofail) Returned); auto. }
      assert (Hlast : In lastDoc (d :: ds)).
      { apply in_rev. rewrite Hrev. left. reflexivity. }
      unfold sql_delete_upto, sql_write. rewrite Hr3.
      destruct (sql_raises E (rows sh) (DeleteUpTo (rowid lastDoc))).
      { apply (Hkept (logged FailedToMoveDocumentsToColdStorage
                        (traced (DeleteUpTo (rowid lastDoc)) sh3))
                 Hr3 (or_intror Hnofail) Threw); auto. }
      intros [= <- <- <-]. exists new. split; [exact L|].
      split; [intros Hf; rewrite Hf in Hnofail; discriminate|].
      split; [congruence|]. cbn [rows set_rows traced sql_trace].
      split.
      { right. exists lastDoc, limit. rewrite Ht3. auto. }
      intros r Hin Hout. apply Rin.
      assert (Hle : (rowid r <= rowid lastDoc)%Z).
      { destruct (Z.leb_spec (rowid r) (rowid lastDoc)) as [H|H]; [exact H|].
        exfalso. apply Hout. apply filter_In. split; [exact Hin|].
        destruct (Z.leb_spec (rowid r) (rowid lastDoc)); [lia|reflexivity]. }
      rewrite <- Hdocs in Hlast |- *. unfold sql_limit in *.
      destruct (limit <? 0)%Z; [apply in_sort_by, Hin|].
      apply (sorted_prefix_closed rowid _ _ lastDoc r).
      + apply sort_by_sorted.
      + apply (Permutation_NoDup (l := map rowid (rows sh))); [|exact Hnd].
        apply Permutation_map, Permutation_sym, sort_by_perm.
      + exact Hlast.
      + apply in_sort_by, Hin.
      + exact Hle. }
    match goal with
    | |- context [(idx =? ?i0)%Z] => destruct (idx =? i0)%Z
    end; apply Hcont; reflexivity.
  - apply Hkept; [reflexivity|left; discriminate|auto].
  - apply Hkept; [reflexivity|left; discriminate|auto].
Qed.

Lemma purge_deletes_only_after_cold_writes_witness :
  NoDup (map rowid (rows rolling_primary))
  /\ fst (fst (purgeOldData quiet_env 100 70000 rolling_primary calm_world))
     = Returned
  /\ List.length
       (rows (snd (fst (purgeOldData quiet_env 100 70000 rolling_primary
                          calm_world)))) = 10
  /\ forall r,
       In r (rows rolling_primary) ->
       ~ In r (rows (snd (fst (purgeOldData quiet_env 100 70000
                                 rolling_primary calm_world)))) ->
       in_cold_storage
         (snd (purgeOldData quiet_env 100 70000 rolling_primary calm_world))
         r.
Proof.
  assert (Hnd : NoDup (map rowid (rows rolling_primary))).
  { vm_compute. repeat (constructor; [simpl; intuition discriminate|]).
    constructor. }
  split; [exact Hnd|].
  split; [vm_compute; reflexivity|].
  split; [vm_compute; reflexivity|].
  destruct (purge_deletes_only_after_cold_writes quiet_env 100 70000
              rolling_primary _ calm_world _ _ Hnd
              (triple_eta (purgeOldData quiet_env 100 70000 rolling_primary
                             calm_world)))
    as (new & _ & _ & _ & _ & Hcold).
  exact Hcold.
Defined.

(** The rolling cold storage scenario: the first three cold shards
    receive five documents each and are read-only, and the index is 3. *)
Example rolling_cold_storage :
  map (fun i =>
         let c := COLD_STORAGE_DO
                    (snd (alarm quiet_env 100 70000 rolling_primary
                            calm_world))
                    (coldStorageName (js "cold-storage") i) in
         (List.length (rows c), isReadOnly (config c)))
      [0; 1; 2; 3]%Z
  = [(5, Some true); (5, Some true); (5, Some true); (0, None)]
  /\ currentColdStorageIndex
       (config (snd (fst (alarm quiet_env 100 70000 rolling_primary
                            calm_world)))) = Some 3%Z
  /\ map rowid (rows (snd (fst (alarm quiet_env 100 70000 rolling_primary
                                  calm_world))))
     = [16; 17; 18; 19; 20; 21; 22; 23; 24; 25]%Z.
Proof. vm_compute. repeat split; reflexivity. Qed.

(** ** Fuel *)

Section Fuel.

Variable E : Env.

(** The fuel only bounds the rounds of the loop: a run that ends within
    its fuel ends the same way with more. *)
Lemma purge_loop_more_fuel (now : Z) (prefix : str) (threshold : Z)
  (k fuel : nat) :
  forall (w : World) (index : Z) (remaining : list Row) out index' w',
  purge_loop E fuel now w prefix threshold index remaining
  = (out, index', w') ->
  out <> OutOfFuel ->
  purge_loop E (fuel + k) now w prefix threshold index remaining
  = (out, index', w').
Proof.
  induction fuel as [|fuel IH]; intros w index remaining out index' w'.
  - destruct remaining as [|r0 rest]; simpl.
    + intros [= <- <- <-] _. destruct k; reflexivity.
    + intros [= <- <- <-] H. congruence.
  - destruct remaining as [|r0 rest]; [simpl; auto|].
    cbn [purge_loop Nat.add].
    destruct (rpc E now w _ CallGetStats) as [rep1 w1].
    destruct (_ <=? 0)%Z; [apply IH|].
    destruct (rpc E now w1 _ (CallIndexDocuments _)) as [rep2 w2].
    destruct rep2 as [|result| | | |]; auto.
    destruct (success result); auto.
    match goal with
    | |- context [if ?c then match ?r with _ => _ end else (true, w2)] =>
        destruct (if c then match r with
                            | (ConfigureReply, w3) => (true, w3)
                            | (_, w3) => (false, w3)
                            end
                  else (true, w2)) as [ok w3]
    end.
    destruct ok; [apply IH|auto].
Qed.

Lemma purgeOldData_more_fuel (k fuel : nat) (now : Z) (sh sh' : Shard)
  (w w' : World) (out : Outcome) :
  purgeOldData E fuel now sh w = (out, sh', w') ->
  out <> OutOfFuel ->
  purgeOldData E (fuel + k) now sh w = (out, sh', w').
Proof.
  unfold purgeOldData.
  destruct (sql_count E sh) as [[count|] sh1]; [|auto].
  destruct (negb _); [auto|].
  destruct (sql_select_oldest E sh1 _) as [[[|d ds]|] sh2]; auto.
  match goal with
  | |- context [purge_loop E fuel now w ?p ?t ?i ?l] =>
      destruct (purge_loop E fuel now w p t i l) as [[o idx] w1] eqn:Hloop
  end.
  intros Hrun Hout.
  assert (Ho : o <> OutOfFuel).
  { intros ->. injection Hrun as <- _ _. congruence. }
  rewrite (purge_loop_more_fuel _ _ _ k _ _ _ _ _ _ _ Hloop Ho).
  exact Hrun.
Qed.

(** With no replica and no purge threshold configured, the alarm of a
    shard that is not read-only returns and sets the next alarm, whatever
    the fuel. *)
Lemma alarm_without_steps (fuel : nat) (now : Z) (sh : Shard) (w : World) :
  truthy_bool (isReadOnly (config sh)) = false ->
  replicas (config sh) = None ->
  truthy_num (purgeThresholdDocs (config sh)) = false ->
  alarm E fuel now sh w
  = (Returned,
     setAlarm (now + num_or (alarmIntervalMs (config sh)) 60000) sh, w).
Proof.
  intros Hro Hr Hp. unfold alarm, replication_step, lifecycle_step.
  rewrite Hro, Hr, Hp. reflexivity.
Qed.

End Fuel.
